(** * Monthly account balance generation DAG

    Shallow embedding of
    [dags/account_monthly_balance_generation/account_monthly_balance_generation.py]:
    the parameter dictionary [PARAMS_DEFINITION], the four tasks of the DAG,
    the dependency edges built with [>>], and the way an Airflow scheduler
    runs task instances of that DAG (trigger rule [all_success], task-level
    [retries], [upstream_failed] propagation, dag-run state from the leaves).
    External services (Snowflake, the S3 signer, the Slack webhook) are
    observed through an effect log. *)

From Stdlib Require Import String List Bool Arith Lia ZArith.
Import ListNotations.
Open Scope string_scope.

(** ** Python dictionaries with string keys and values *)

Definition dict := list (string * string).

(** [d.get(k)]: the first binding of [k] (a Python dict literal has no
    duplicate keys). *)
Fixpoint dict_get (d : dict) (k : string) : option string :=
  match d with
  | [] => None
  | (k', v) :: d' => if String.eqb k k' then Some v else dict_get d' k
  end.

(** [d.get(k, default)] *)
Definition dict_get_default (d : dict) (k default : string) : string :=
  match dict_get d k with Some v => v | None => default end.

(** [os.path.join(a, b)] for a relative [b]. *)
Definition path_join (a b : string) : string :=
  if String.eqb a "" then b
  else if String.eqb (String.substring (String.length a - 1) 1 a) "/"
       then a ++ b else a ++ "/" ++ b.

(** ** Module-level constants *)

Section Params.
(** [os.path.dirname(__file__)]: the directory the DAG file lives in. *)
Variable dag_dir : string.

Definition PARAMS_DEFINITION : dict :=
  [ ("snowflake_conn_id", "snowflake_conn_id");
    ("aws_conn_id", "aws_conn_id");
    ("queries_base_path", path_join dag_dir "queries");
    ("db", "NU_CO_DEV_BUSINESS");
    ("schema_origin", "POSTGRES_RDS_PUBLIC");
    ("schema_destination", "FINANCE_SILVER_TABLES");
    ("stage", "@NU_CO_DEV_BUSINESS.POSTGRES_RDS_PUBLIC.S3_STAGE_STUDY_CASE");
    ("path", "output_files");
    ("bucket_s3", "terraform-nu-db-pg-48baa6b7");
    ("filename", "account_monthly_balance.csv");
    ("files_dir", path_join "/tmp" "balance") ].
End Params.

(** [default_args={"owner": "AFMP", "retries": 3}] *)
Definition default_owner : string := "AFMP".
Definition default_retries : nat := 3.

(** ** The tasks of the DAG *)

Inductive task :=
| create_table_snowflake
| load_to_s3
| generate_presigned_url
| notify_slack.

Definition task_eqb (a b : task) : bool :=
  match a, b with
  | create_table_snowflake, create_table_snowflake
  | load_to_s3, load_to_s3
  | generate_presigned_url, generate_presigned_url
  | notify_slack, notify_slack => true
  | _, _ => false
  end.

Lemma task_eqb_spec (a b : task) : task_eqb a b = true <-> a = b.
Proof. destruct a, b; simpl; split; congruence. Qed.

Lemma task_eqb_refl (a : task) : task_eqb a a = true.
Proof. destruct a; reflexivity. Qed.

Lemma task_dec (a b : task) : {a = b} + {a <> b}.
Proof. decide equality. Defined.

Definition all_tasks : list task :=
  [create_table_snowflake; load_to_s3; generate_presigned_url; notify_slack].

Definition task_id (t : task) : string :=
  match t with
  | create_table_snowflake => "create_table_snowflake"
  | load_to_s3 => "load_to_s3"
  | generate_presigned_url => "generate_presigned_url"
  | notify_slack => "notify_slack"
  end.

(** [SQLExecuteQueryOperator(task_id=..., sql=..., conn_id=..., params=...)] *)
Record sql_operator := {
  so_task_id : string;
  so_sql : string;
  so_conn_id : string;
  so_params : dict }.

(** The call [generate_presigned_url(bucket, key, 604800)] made while the
    DAG is defined: its three arguments. *)
Record presign_call := {
  pc_bucket_name : string;
  pc_object_key : string;
  pc_expires_in_sec : Z }.

(** What the body of [account_monthly_balance_generation()] builds. A
    missing key of the dictionary raises [KeyError]: [None]. *)
Record dag_def := {
  d_create : sql_operator;
  d_load : sql_operator;
  d_presign : presign_call;
  d_edges : list (task * task) }.

(** [create_table_snowflake >> load_to_s3] and
    [load_to_s3 >> presigned_url >> notify_slack(presigned_url)]. *)
Definition dag_edges : list (task * task) :=
  [ (create_table_snowflake, load_to_s3);
    (load_to_s3, generate_presigned_url);
    (generate_presigned_url, notify_slack) ].

Definition account_monthly_balance_generation (params : dict) : option dag_def :=
  match dict_get params "snowflake_conn_id", dict_get params "bucket_s3",
        dict_get params "path", dict_get params "filename" with
  | Some sf, Some bucket, Some path, Some filename =>
    Some {|
      d_create := {| so_task_id := "create_table_snowflake";
                     so_sql := "create_table_snowflake.sql";
                     so_conn_id := sf; so_params := params |};
      d_load := {| so_task_id := "load_to_s3";
                   so_sql := "load_to_s3.sql";
                   so_conn_id := sf; so_params := params |};
      d_presign := {| pc_bucket_name := bucket;
                      pc_object_key := path ++ "/" ++ filename;
                      pc_expires_in_sec := 604800 |};
      d_edges := dag_edges |}
  | _, _, _, _ => None
  end.

(** Every operator of the DAG takes [retries] from [default_args]; none
    passes its own. *)
Definition task_retries (t : task) : nat := default_retries.



(** ** The body of [generate_presigned_url] *)

(** An Airflow connection as [BaseHook.get_connection] returns it. *)
Record connection := {
  conn_login : string;
  conn_password : string;
  conn_extra_dejson : dict }.

(** [boto3.Session(aws_access_key_id=..., aws_secret_access_key=...,
    region_name=...)] *)
Record session := {
  s_access_key_id : string;
  s_secret_access_key : string;
  s_region_name : string }.

(** [session.client("s3", region_name=...)] *)
Record s3_client := {
  c_service : string;
  c_session : session;
  c_region_name : string }.

(** [s3.generate_presigned_url(ClientMethod=..., Params=..., ExpiresIn=...)] *)
Record presign_request := {
  pr_client : s3_client;
  pr_client_method : string;
  pr_bucket : string;
  pr_key : string;
  pr_expires_in : Z }.

(** The world outside the DAG: the connection registry and the S3 signer
    (which turns a signing request into the URL string). *)
Record env := {
  get_connection : string -> option connection;
  sign : presign_request -> string }.

Definition presigned_url_request (E : env) (params : dict)
    (bucket_name object_key : string) (expires_in_sec : Z)
    : option presign_request :=
  match dict_get params "aws_conn_id" with
  | None => None
  | Some aws_conn_id =>
    match get_connection E aws_conn_id with
    | None => None
    | Some conn =>
      let extras := conn_extra_dejson conn in
      let sess := {| s_access_key_id := conn_login conn;
                     s_secret_access_key := conn_password conn;
                     s_region_name := dict_get_default extras "region_name" "us-east-1" |} in
      let s3 := {| c_service := "s3"; c_session := sess;
                   c_region_name := "us-east-1" |} in
      Some {| pr_client := s3;
              pr_client_method := "get_object";
              pr_bucket := bucket_name;
              pr_key := object_key;
              pr_expires_in := expires_in_sec |}
    end
  end.

(** ** The body of [notify_slack] *)

Definition newline : string := String (Ascii.Ascii false true false true false false false false) EmptyString.

Definition slack_prefix : string :=
  "✅ CSV file for monthly account balance is available at:".

(** [f"✅ CSV file for monthly account balance is available at:\n{url}"] *)
Definition slack_message (url : string) : string :=
  slack_prefix ++ newline ++ url.

(** [SlackWebhookOperator(task_id=..., slack_webhook_conn_id=..., message=...,
    username=...)] *)
Record slack_operator := {
  sw_task_id : string;
  sw_webhook_conn_id : string;
  sw_message : string;
  sw_username : string }.

Definition notify_slack_operator (url : string) : slack_operator :=
  {| sw_task_id := "send_slack_message";
     sw_webhook_conn_id := "slack_webhook_conn";
     sw_message := slack_message url;
     sw_username := "airflow-bot" |}.

(** ** Running the DAG: task instances and the scheduler *)

(** Task-instance states used by the scheduler ([None] is [no_status]). *)
Inductive ti_state :=
| no_status
| running
| success
| failed
| up_for_retry
| upstream_failed.

Definition ti_state_eqb (a b : ti_state) : bool :=
  match a, b with
  | no_status, no_status | running, running | success, success
  | failed, failed | up_for_retry, up_for_retry
  | upstream_failed, upstream_failed => true
  | _, _ => false
  end.

Lemma ti_state_eqb_spec (a b : ti_state) : ti_state_eqb a b = true <-> a = b.
Proof. destruct a, b; simpl; split; congruence. Qed.

(** Calls made to the outside world by task bodies that completed. *)
Inductive effect :=
| ESql (op : sql_operator)
| EPresign (req : presign_request)
| ESlack (op : slack_operator).

(** Scheduler events, in chronological order in the trace. *)
Inductive event :=
| EvStart (t : task)
| EvSuccess (t : task)
| EvFail (t : task)
| EvUpstreamFailed (t : task).

Definition ev_task (e : event) : task :=
  match e with
  | EvStart t | EvSuccess t | EvFail t | EvUpstreamFailed t => t
  end.

Record state := {
  st_ti : task -> ti_state;
  st_tries : task -> nat;
  st_xcom : option string;   (* return value of generate_presigned_url *)
  st_effects : list effect;
  st_trace : list event }.

Definition upd {A} (f : task -> A) (t : task) (v : A) : task -> A :=
  fun t' => if task_eqb t t' then v else f t'.

(** A fresh dag run; [log] holds what earlier runs left in the outside
    world (messages already posted, ...). *)
Definition init_state (log : list effect) : state :=
  {| st_ti := fun _ => no_status; st_tries := fun _ => 0;
     st_xcom := None; st_effects := log; st_trace := [] |}.

Definition upstream (D : dag_def) (t : task) : list task :=
  map fst (filter (fun e => task_eqb (snd e) t) (d_edges D)).

Definition leaves (D : dag_def) : list task :=
  filter (fun t => negb (existsb (fun e => task_eqb (fst e) t) (d_edges D)))
         all_tasks.

Definition finished (s : ti_state) : bool :=
  match s with success | failed | upstream_failed => true | _ => false end.

Definition failed_like (s : ti_state) : bool :=
  match s with failed | upstream_failed => true | _ => false end.

(** Actions the scheduler and the workers may take. *)
Inductive action :=
| ActStart (t : task)             (* queue and run one try of [t] *)
| ActSucceed (t : task)           (* the try of [t] returns *)
| ActFail (t : task)              (* the try of [t] raises *)
| ActUpstreamFailed (t : task).   (* trigger rule can no longer be met *)

Section Run.
Variable E : env.
Variable params : dict.
Variable D : dag_def.

(** What a successful try of [t] does; [None] when the body cannot
    return (missing connection, missing XCom value). *)
Definition execute_task (t : task) (st : state) : option state :=
  match t with
  | create_table_snowflake =>
    Some {| st_ti := st_ti st; st_tries := st_tries st; st_xcom := st_xcom st;
            st_effects := st_effects st ++ [ESql (d_create D)];
            st_trace := st_trace st |}
  | load_to_s3 =>
    Some {| st_ti := st_ti st; st_tries := st_tries st; st_xcom := st_xcom st;
            st_effects := st_effects st ++ [ESql (d_load D)];
            st_trace := st_trace st |}
  | generate_presigned_url =>
    let c := d_presign D in
    match presigned_url_request E params (pc_bucket_name c) (pc_object_key c)
                                (pc_expires_in_sec c) with
    | Some req =>
      Some {| st_ti := st_ti st; st_tries := st_tries st;
              st_xcom := Some (sign E req);
              st_effects := st_effects st ++ [EPresign req];
              st_trace := st_trace st |}
    | None => None
    end
  | notify_slack =>
    match st_xcom st with
    | Some url =>
      Some {| st_ti := st_ti st; st_tries := st_tries st; st_xcom := st_xcom st;
              st_effects := st_effects st ++ [ESlack (notify_slack_operator url)];
              st_trace := st_trace st |}
    | None => None
    end
  end.

Definition set_ti (st : state) (t : task) (s : ti_state) (ev : event) : state :=
  {| st_ti := upd (st_ti st) t s; st_tries := st_tries st; st_xcom := st_xcom st;
     st_effects := st_effects st; st_trace := st_trace st ++ [ev] |}.

(** Trigger rule [all_success] (the default). *)
Definition upstream_all_success (st : state) (t : task) : bool :=
  forallb (fun u => ti_state_eqb (st_ti st u) success) (upstream D t).

Definition upstream_any_failed (st : state) (t : task) : bool :=
  existsb (fun u => failed_like (st_ti st u)) (upstream D t).

(** A failed try goes back to [up_for_retry] while the try number does not
    exceed [retries]. *)
Definition eligible_to_retry (t : task) (try_number : nat) : bool :=
  Nat.leb try_number (task_retries t).

Definition step (st : state) (a : action) : option state :=
  match a with
  | ActStart t =>
    match st_ti st t with
    | no_status | up_for_retry =>
      if upstream_all_success st t then
        Some {| st_ti := upd (st_ti st) t running;
                st_tries := upd (st_tries st) t (S (st_tries st t));
                st_xcom := st_xcom st; st_effects := st_effects st;
                st_trace := st_trace st ++ [EvStart t] |}
      else None
    | _ => None
    end
  | ActSucceed t =>
    match st_ti st t with
    | running =>
      match execute_task t st with
      | Some st' => Some (set_ti st' t success (EvSuccess t))
      | None => None
      end
    | _ => None
    end
  | ActFail t =>
    match st_ti st t with
    | running =>
      Some (set_ti st t (if eligible_to_retry t (st_tries st t)
                         then up_for_retry else failed) (EvFail t))
    | _ => None
    end
  | ActUpstreamFailed t =>
    match st_ti st t with
    | no_status =>
      if upstream_any_failed st t
      then Some (set_ti st t upstream_failed (EvUpstreamFailed t))
      else None
    | _ => None
    end
  end.

Fixpoint run_actions (st : state) (acts : list action) : option state :=
  match acts with
  | [] => Some st
  | a :: acts' =>
    match step st a with Some st' => run_actions st' acts' | None => None end
  end.

(** Reflexive-transitive closure of [step]. *)
Inductive reachable : state -> state -> Prop :=
| reach_refl st : reachable st st
| reach_step st a st' st'' :
    step st a = Some st' -> reachable st' st'' -> reachable st st''.

Definition all_actions : list action :=
  flat_map (fun t => [ActStart t; ActSucceed t; ActFail t; ActUpstreamFailed t])
           all_tasks.

Definition quiescent (st : state) : bool :=
  forallb (fun a => match step st a with Some _ => false | None => true end)
          all_actions.

Inductive run_state := RunRunning | RunSuccess | RunFailed.

(** [DagRun.update_state]: once no task is unfinished, the run is failed
    if a leaf failed (or its upstream did), successful if all leaves
    succeeded. *)
Definition dag_run_state (st : state) : run_state :=
  if forallb (fun t => finished (st_ti st t)) all_tasks then
    if existsb (fun t => failed_like (st_ti st t)) (leaves D) then RunFailed
    else if forallb (fun t => ti_state_eqb (st_ti st t) success) (leaves D)
    then RunSuccess else RunRunning
  else RunRunning.

End Run.

(** The DAG object built at import time: [dag = account_monthly_balance_generation()]. *)
Definition reference_dag (dag_dir : string) : option dag_def :=
  account_monthly_balance_generation (PARAMS_DEFINITION dag_dir).

(** The order in which the claims list the steps. *)
Definition pipeline : list task := all_tasks.

Definition ord (t : task) : nat :=
  match t with
  | create_table_snowflake => 0
  | load_to_s3 => 1
  | generate_presigned_url => 2
  | notify_slack => 3
  end.

(** Task-instance states in which a try has been started. *)
Definition active (s : ti_state) : bool :=
  match s with running | success | up_for_retry | failed => true | _ => false end.

(** The tries a task instance has used, in each state: [retries] further
    tries after the first. *)
Definition tries_ok (t : task) (s : ti_state) (n : nat) : Prop :=
  match s with
  | no_status | upstream_failed => n = 0
  | running | success => 1 <= n <= task_retries t + 1
  | up_for_retry => 1 <= n <= task_retries t
  | failed => n = task_retries t + 1
  end.

Definition is_slack (e : effect) : bool :=
  match e with ESlack _ => true | _ => false end.

Definition count_slack (l : list effect) : nat := length (filter is_slack l).

(** Steps a task instance may still take: two per try left (start, end),
    one more for a running try. *)
Definition ti_potential (t : task) (s : ti_state) (n : nat) : nat :=
  match s with
  | no_status => 2 * (task_retries t + 1)
  | up_for_retry => 2 * (task_retries t + 1 - n)
  | running => 2 * (task_retries t + 1 - n) + 1
  | _ => 0
  end.

Definition potential (st : state) : nat :=
  list_sum (map (fun t => ti_potential t (st_ti st t) (st_tries st t)) all_tasks).

(** ** Generic facts *)

Open Scope list_scope.

Lemma app_snoc_split {A} (tr : list A) x pre e post :
  tr ++ [x] = pre ++ e :: post ->
  (pre = tr /\ e = x /\ post = []) \/
  (exists post0, tr = pre ++ e :: post0 /\ post = post0 ++ [x]).
Proof.
  revert tr; induction pre as [|p pre IH]; intros tr H.
  - destruct tr as [|a tr]; simpl in H; inversion H; subst.
    + left; auto.
    + right; exists tr; auto.
  - destruct tr as [|a tr]; simpl in H; inversion H; subst.
    + destruct pre; discriminate.
    + destruct (IH tr H2) as [(-> & -> & ->)|(post0 & -> & ->)].
      * left; auto.
      * right; exists post0; auto.
Qed.

Lemma upd_eq {A} (f : task -> A) t v : upd f t v t = v.
Proof. unfold upd; destruct t; reflexivity. Qed.

Lemma upd_neq {A} (f : task -> A) t t' v : t <> t' -> upd f t v t' = f t'.
Proof.
  unfold upd; intros H; destruct (task_eqb t t') eqn:E; auto.
  apply task_eqb_spec in E; congruence.
Qed.

Lemma count_slack_app l1 l2 : count_slack (l1 ++ l2) = count_slack l1 + count_slack l2.
Proof. unfold count_slack; rewrite filter_app, length_app; reflexivity. Qed.

Lemma reachable_trans E params D st1 st2 st3 :
  reachable E params D st1 st2 -> reachable E params D st2 st3 ->
  reachable E params D st1 st3.
Proof.
  induction 1; intros; auto. econstructor; eauto.
Qed.

Lemma run_actions_reachable E params D acts st st' :
  run_actions E params D st acts = Some st' -> reachable E params D st st'.
Proof.
  revert st; induction acts as [|a acts IH]; simpl; intros st H.
  - injection H as <-; constructor.
  - destruct (step E params D st a) as [s|] eqn:Hs; [|discriminate].
    econstructor; eauto.
Qed.

Lemma dag_edges_of params D :
  account_monthly_balance_generation params = Some D -> d_edges D = dag_edges.
Proof.
  unfold account_monthly_balance_generation.
  destruct (dict_get params "snowflake_conn_id"), (dict_get params "bucket_s3"),
           (dict_get params "path"), (dict_get params "filename");
    intros H; try discriminate; injection H as <-; reflexivity.
Qed.

(** ** The scheduler invariant of the linear chain *)

Section Invariant.
Variable E : env.
Variable params : dict.
Variable D : dag_def.
Hypothesis HD : d_edges D = dag_edges.
Variable log0 : list effect.

Definition allowed_effect (e : effect) : Prop :=
  match e with
  | ESql op => op = d_create D \/ op = d_load D
  | EPresign r =>
    presigned_url_request E params (pc_bucket_name (d_presign D))
      (pc_object_key (d_presign D)) (pc_expires_in_sec (d_presign D)) = Some r
  | ESlack op => exists url, op = notify_slack_operator url
  end.

Record Inv (st : state) : Prop := {
  inv_before : forall t u, active (st_ti st t) = true -> ord u < ord t ->
                           st_ti st u = success;
  inv_uf : forall t, st_ti st t = upstream_failed -> upstream_any_failed D st t = true;
  inv_uf_before : forall t, st_ti st t = upstream_failed -> forall u, ord u < ord t ->
                  st_ti st u = success \/ st_ti st u = failed \/ st_ti st u = upstream_failed;
  inv_fresh : forall t, st_ti st t = no_status ->
                        forall e, In e (st_trace st) -> ev_task e <> t;
  inv_uf_nostart : forall t, st_ti st t = upstream_failed -> ~ In (EvStart t) (st_trace st);
  inv_success_ev : forall t, st_ti st t = success -> In (EvSuccess t) (st_trace st);
  inv_start_after : forall pre t post, st_trace st = pre ++ EvStart t :: post ->
                    forall u, ord u < ord t -> In (EvSuccess u) pre;
  inv_sorted : forall pre e post, st_trace st = pre ++ e :: post ->
               forall e', In e' pre -> ord (ev_task e') <= ord (ev_task e);
  inv_tries : forall t, tries_ok t (st_ti st t) (st_tries st t);
  inv_effects : exists new, st_effects st = log0 ++ new /\ Forall allowed_effect new /\
                count_slack new = if ti_state_eqb (st_ti st notify_slack) success then 1 else 0 }.

Lemma upstream_chain t :
  upstream D t = match t with
                 | create_table_snowflake => []
                 | load_to_s3 => [create_table_snowflake]
                 | generate_presigned_url => [load_to_s3]
                 | notify_slack => [generate_presigned_url]
                 end.
Proof. unfold upstream; rewrite HD; destruct t; reflexivity. Qed.

Lemma leaves_chain : leaves D = [notify_slack].
Proof. unfold leaves; rewrite HD; reflexivity. Qed.


Lemma upstream_not_self t : ~ In t (upstream D t).
Proof. rewrite upstream_chain; destruct t; simpl; intuition discriminate. Qed.

Lemma upstream_ord t p : In p (upstream D t) ->
  forall u, ord u < ord t -> u = p \/ ord u < ord p.
Proof.
  rewrite upstream_chain; intros Hp u Hu.
  destruct t; simpl in Hp; intuition subst; destruct u; simpl in *; auto; lia.
Qed.

Lemma any_failed_spec st t :
  upstream_any_failed D st t = true <->
  exists p, In p (upstream D t) /\ failed_like (st_ti st p) = true.
Proof. unfold upstream_any_failed; apply existsb_exists. Qed.

Lemma all_success_spec st t :
  upstream_all_success D st t = true <->
  forall p, In p (upstream D t) -> st_ti st p = success.
Proof.
  unfold upstream_all_success; rewrite forallb_forall.
  split; intros H p Hp; apply ti_state_eqb_spec; auto.
Qed.

(** Task-instance states in which the scheduler may still act on a task. *)
Definition open_state (s : ti_state) : bool :=
  match s with no_status | up_for_retry | running => true | _ => false end.

Lemma active_success : active success = true.
Proof. reflexivity. Qed.

Section Facts.
Variable st : state.
Hypothesis I : Inv st.

Lemma all_success_before t : upstream_all_success D st t = true ->
  forall u, ord u < ord t -> st_ti st u = success.
Proof.
  rewrite all_success_spec; intros H u Hu.
  destruct t; simpl in Hu; [lia| | |]; rewrite upstream_chain in H.
  - destruct u; simpl in Hu; try lia. apply H; simpl; auto.
  - assert (Hl : st_ti st load_to_s3 = success) by (apply H; simpl; auto).
    destruct u; simpl in Hu; try lia; auto.
    eapply (inv_before _ I load_to_s3); [rewrite Hl; reflexivity | simpl; lia].
  - assert (Hl : st_ti st generate_presigned_url = success) by (apply H; simpl; auto).
    destruct u; simpl in Hu; try lia; auto;
    eapply (inv_before _ I generate_presigned_url); try (rewrite Hl; reflexivity); simpl; lia.
Qed.

Lemma later_fresh t t' : open_state (st_ti st t) = true -> ord t < ord t' ->
  st_ti st t' = no_status.
Proof.
  intros Ho Hlt.
  destruct (st_ti st t') eqn:H'; auto;
    try (assert (Hs : st_ti st t = success)
           by (apply (inv_before _ I t'); [rewrite H'; reflexivity | exact Hlt]);
         rewrite Hs in Ho; discriminate).
  destruct (inv_uf_before _ I t' H' t Hlt) as [Hs|[Hs|Hs]]; rewrite Hs in Ho; discriminate.
Qed.

Lemma trace_before t : open_state (st_ti st t) = true ->
  forall e, In e (st_trace st) -> ord (ev_task e) <= ord t.
Proof.
  intros Ho e He.
  destruct (Nat.le_gt_cases (ord (ev_task e)) (ord t)) as [H|H]; auto.
  exfalso; apply (inv_fresh _ I (ev_task e) (later_fresh t _ Ho H) e He); reflexivity.
Qed.

End Facts.

Lemma Inv_update st st' t s ev :
  Inv st ->
  ev_task ev = t ->
  open_state (st_ti st t) = true ->
  st_ti st' = upd (st_ti st) t s ->
  st_trace st' = st_trace st ++ [ev] ->
  s <> no_status ->
  (active s = true -> forall u, ord u < ord t -> st_ti st u = success) ->
  (s = upstream_failed ->
   st_ti st t = no_status /\ ev = EvUpstreamFailed t /\ upstream_any_failed D st t = true) ->
  (ev = EvStart t -> upstream_all_success D st t = true) ->
  (s = success -> ev = EvSuccess t) ->
  (forall t', tries_ok t' (st_ti st' t') (st_tries st' t')) ->
  (exists new, st_effects st' = log0 ++ new /\ Forall allowed_effect new /\
     count_slack new = if ti_state_eqb (st_ti st' notify_slack) success then 1 else 0) ->
  Inv st'.
Proof.
  intros I Hev Ho Hti Htr Hns Hact Huf Hstart Hsucc Htries Heff.
  assert (Hat : forall t', st_ti st' t' = if task_eqb t t' then s else st_ti st t')
    by (intros; rewrite Hti; reflexivity).
  (* a task of the old state other than [t] keeps its state *)
  assert (Hkeep : forall t', t <> t' -> st_ti st' t' = st_ti st t')
    by (intros t' Hne; rewrite Hat; destruct (task_eqb t t') eqn:Ee; auto;
        apply task_eqb_spec in Ee; congruence).
  assert (Hnew : st_ti st' t = s) by (rewrite Hat, task_eqb_refl; reflexivity).
  (* [t] is not closed, so nothing before it that matters is [t] itself *)
  assert (Hnot_succ : st_ti st t <> success) by (intros E1; rewrite E1 in Ho; discriminate).
  assert (Hnot_fl : failed_like (st_ti st t) = false)
    by (destruct (st_ti st t); try discriminate; reflexivity).
  constructor.
  - intros t'' u Ha Hu.
    destruct (task_dec t t'') as [<-|Hne].
    + rewrite Hnew in Ha. rewrite Hkeep by (intros ->; lia). exact (Hact Ha u Hu).
    + rewrite Hkeep in Ha by exact Hne.
      pose proof (inv_before _ I t'' u Ha Hu) as Hs.
      destruct (task_dec t u) as [<-|Hne']; [congruence|].
      rewrite Hkeep by exact Hne'; exact Hs.
  - intros t'' Hu. apply any_failed_spec.
    destruct (task_dec t t'') as [<-|Hne].
    + rewrite Hnew in Hu. destruct (Huf Hu) as (_ & _ & Ha).
      apply any_failed_spec in Ha as (p & Hp & Hf). exists p; split; auto.
      rewrite Hkeep; auto. intros ->; exact (upstream_not_self _ Hp).
    + rewrite Hkeep in Hu by exact Hne.
      apply (inv_uf _ I), any_failed_spec in Hu as (p & Hp & Hf).
      exists p; split; auto.
      destruct (task_dec t p) as [<-|Hne']; [congruence|].
      rewrite Hkeep; auto.
  - intros t'' Hu u Hlt.
    destruct (task_dec t u) as [<-|Hne'].
    + destruct (task_dec t t'') as [<-|Hne]; [lia|].
      rewrite Hkeep in Hu by exact Hne.
      destruct (inv_uf_before _ I t'' Hu t Hlt) as [H|[H|H]];
        rewrite H in Ho; discriminate.
    + rewrite (Hkeep u Hne').
      destruct (task_dec t t'') as [<-|Hne].
      * rewrite Hnew in Hu. destruct (Huf Hu) as (_ & _ & Ha).
        apply any_failed_spec in Ha as (p & Hp & Hf).
        destruct (upstream_ord _ _ Hp u Hlt) as [->|Hlt'].
        -- destruct (st_ti st p); try discriminate; auto.
        -- destruct (st_ti st p) eqn:Hsp; try discriminate.
           ++ left; apply (inv_before _ I p u); [rewrite Hsp; reflexivity | exact Hlt'].
           ++ exact (inv_uf_before _ I p Hsp u Hlt').
      * rewrite Hkeep in Hu by exact Hne. exact (inv_uf_before _ I t'' Hu u Hlt).
  - intros t'' Hn e He. rewrite Htr in He. apply in_app_or in He as [He|He].
    + destruct (task_dec t t'') as [<-|Hne]; [congruence|].
      rewrite Hkeep in Hn by exact Hne. exact (inv_fresh _ I t'' Hn e He).
    + destruct He as [<-|[]]. rewrite Hev. intros ->. congruence.
  - intros t'' Hu. rewrite Htr. intros He. apply in_app_or in He as [He|He].
    + destruct (task_dec t t'') as [<-|Hne].
      * rewrite Hnew in Hu. destruct (Huf Hu) as (Hn & _ & _).
        exact (inv_fresh _ I t Hn _ He eq_refl).
      * rewrite Hkeep in Hu by exact Hne. exact (inv_uf_nostart _ I t'' Hu He).
    + destruct He as [He|[]]. subst ev. simpl in Hev. subst t''.
      rewrite Hnew in Hu. destruct (Huf Hu) as (_ & Hx & _). discriminate.
  - intros t'' Hs. rewrite Htr. apply in_or_app.
    destruct (task_dec t t'') as [<-|Hne].
    + rewrite Hnew in Hs. right; left; exact (Hsucc Hs).
    + rewrite Hkeep in Hs by exact Hne. left; exact (inv_success_ev _ I t'' Hs).
  - intros pre t'' post Hd u Hu. rewrite Htr in Hd.
    apply app_snoc_split in Hd as [(-> & Hx & ->)|(post0 & Hd & ->)].
    + subst ev. simpl in Hev. subst t''.
      apply (inv_success_ev _ I), (all_success_before _ I t (Hstart eq_refl)); exact Hu.
    + exact (inv_start_after _ I pre t'' post0 Hd u Hu).
  - intros pre e post Hd e' He'. rewrite Htr in Hd.
    apply app_snoc_split in Hd as [(-> & Hx & ->)|(post0 & Hd & ->)].
    + subst e. rewrite Hev. exact (trace_before _ I t Ho e' He').
    + exact (inv_sorted _ I pre e post0 Hd e' He').
  - exact Htries.
  - exact Heff.
Qed.

Lemma Inv_init : Inv (init_state log0).
Proof.
  constructor; simpl; try discriminate; try (intros; contradiction).
  - intros pre t post Hd; destruct pre; discriminate.
  - intros pre e post Hd; destruct pre; discriminate.
  - intros t; reflexivity.
  - exists []; rewrite app_nil_r; repeat split; constructor.
Qed.

Lemma execute_task_frame t st st'' :
  execute_task E params D t st = Some st'' ->
  st_ti st'' = st_ti st /\ st_tries st'' = st_tries st /\ st_trace st'' = st_trace st /\
  exists e, st_effects st'' = st_effects st ++ [e] /\ allowed_effect e /\
            is_slack e = task_eqb t notify_slack.
Proof.
  destruct t; simpl; intros H.
  - injection H as <-; simpl; repeat split; auto. eexists; repeat split; eauto; simpl; auto.
  - injection H as <-; simpl; repeat split; auto. eexists; repeat split; eauto; simpl; auto.
  - destruct (presigned_url_request _ _ _ _ _) as [req|] eqn:Hr; [|discriminate].
    injection H as <-; simpl; repeat split; auto. eexists; repeat split; eauto; exact Hr.
  - destruct (st_xcom st) as [url|]; [|discriminate].
    injection H as <-; simpl; repeat split; auto. eexists; repeat split; eauto.
    simpl; eauto.
Qed.

(** Effects are untouched and the state of [notify_slack] keeps whether it
    succeeded. *)
Lemma effects_frame st (ti' : task -> ti_state) :
  Inv st ->
  ti_state_eqb (ti' notify_slack) success = ti_state_eqb (st_ti st notify_slack) success ->
  exists new, st_effects st = log0 ++ new /\ Forall allowed_effect new /\
     count_slack new = if ti_state_eqb (ti' notify_slack) success then 1 else 0.
Proof.
  intros I Hn. destruct (inv_effects _ I) as (new & Hl & Hf & Hc).
  exists new; rewrite Hn; auto.
Qed.

Lemma Inv_step st a st' :
  Inv st -> step E params D st a = Some st' -> Inv st'.
Proof.
  intros I Hs. pose proof (inv_tries _ I) as Htr.
  destruct a as [t|t|t|t]; simpl in Hs.
  - (* ActStart *)
    assert (Hst : open_state (st_ti st t) = true /\ st_ti st t <> running /\
                  upstream_all_success D st t = true /\
                  st' = {| st_ti := upd (st_ti st) t running;
                           st_tries := upd (st_tries st) t (S (st_tries st t));
                           st_xcom := st_xcom st; st_effects := st_effects st;
                           st_trace := st_trace st ++ [EvStart t] |}).
    { destruct (st_ti st t) eqn:Ht; try discriminate;
      destruct (upstream_all_success D st t) eqn:Hu; try discriminate;
      injection Hs as <-; repeat split; auto; discriminate. }
    destruct Hst as (Ho & Hnr & Hu & ->).
    apply (Inv_update st _ t running (EvStart t)); simpl; auto; try discriminate.
    + intros _; exact (all_success_before _ I t Hu).
    + intros t'. destruct (task_dec t t') as [<-|Hne].
      * rewrite !upd_eq. specialize (Htr t).
        destruct (st_ti st t); try discriminate; try congruence; simpl in *; unfold task_retries, default_retries in *; lia.
      * rewrite !upd_neq by exact Hne. apply Htr.
    + apply (effects_frame st); auto.
      destruct (task_dec t notify_slack) as [->|Hne].
      * rewrite upd_eq. destruct (st_ti st notify_slack); try discriminate; try congruence;
          reflexivity.
      * rewrite upd_neq by exact Hne; reflexivity.
  - (* ActSucceed *)
    destruct (st_ti st t) eqn:Ht; try discriminate.
    destruct (execute_task E params D t st) as [st''|] eqn:Hx; [|discriminate].
    injection Hs as <-.
    destruct (execute_task_frame _ _ _ Hx) as (Hti & Htries & Htrace & e & Heff & Ha & Hsl).
    unfold set_ti.
    apply (Inv_update st _ t success (EvSuccess t)); simpl; rewrite ?Hti, ?Htrace, ?Htries;
      auto; try discriminate; try rewrite Ht; auto.
    + intros _ u Hu. apply (inv_before _ I t u); [rewrite Ht; reflexivity | exact Hu].
    + intros t'. destruct (task_dec t t') as [<-|Hne].
      * rewrite upd_eq. specialize (Htr t). rewrite Ht in Htr. exact Htr.
      * rewrite upd_neq by exact Hne. apply Htr.
    + destruct (inv_effects _ I) as (new & Hl & Hf & Hc).
      exists (new ++ [e]). rewrite Heff, Hl, app_assoc. repeat split; auto.
      * apply Forall_app; auto.
      * rewrite count_slack_app. unfold count_slack at 2; simpl; rewrite Hsl.
        fold (count_slack new). rewrite Hc.
        destruct (task_dec t notify_slack) as [->|Hne].
        -- rewrite upd_eq, Ht; reflexivity.
        -- rewrite upd_neq by exact Hne.
           destruct t; try (exfalso; apply Hne; reflexivity); simpl; lia.
  - (* ActFail *)
    destruct (st_ti st t) eqn:Ht; try discriminate.
    injection Hs as <-. unfold set_ti.
    set (s := if eligible_to_retry t (st_tries st t) then up_for_retry else failed).
    assert (Hs : s = up_for_retry \/ s = failed)
      by (unfold s; destruct (eligible_to_retry _ _); auto).
    apply (Inv_update st _ t s (EvFail t)); simpl; auto; try rewrite Ht; auto;
      try (destruct Hs as [-> | ->]; discriminate).
    + intros _ u Hu. apply (inv_before _ I t u); [rewrite Ht; reflexivity | exact Hu].
    + intros t'. destruct (task_dec t t') as [<-|Hne].
      * rewrite upd_eq. specialize (Htr t). rewrite Ht in Htr. simpl in Htr.
        unfold s, eligible_to_retry. destruct (Nat.leb_spec (st_tries st t) (task_retries t));
          simpl in *; unfold task_retries, default_retries in *; lia.
      * rewrite upd_neq by exact Hne. apply Htr.
    + apply (effects_frame st); auto.
      destruct (task_dec t notify_slack) as [<-|Hne].
      * rewrite upd_eq, Ht. destruct Hs as [-> | ->]; reflexivity.
      * rewrite upd_neq by exact Hne; reflexivity.
  - (* ActUpstreamFailed *)
    destruct (st_ti st t) eqn:Ht; try discriminate.
    destruct (upstream_any_failed D st t) eqn:Hu; try discriminate.
    injection Hs as <-. unfold set_ti.
    apply (Inv_update st _ t upstream_failed (EvUpstreamFailed t)); simpl; auto;
      try rewrite Ht; auto; try discriminate.
    + intros t'. destruct (task_dec t t') as [<-|Hne].
      * rewrite upd_eq. specialize (Htr t). rewrite Ht in Htr. exact Htr.
      * rewrite upd_neq by exact Hne. apply Htr.
    + apply (effects_frame st); auto.
      destruct (task_dec t notify_slack) as [<-|Hne].
      * rewrite upd_eq, Ht; reflexivity.
      * rewrite upd_neq by exact Hne; reflexivity.
Qed.

Lemma Inv_reachable st st' :
  reachable E params D st st' -> Inv st -> Inv st'.
Proof. induction 1; eauto using Inv_step. Qed.

End Invariant.

(** ** Consequences for runs of the DAG *)

Lemma step_failed_stable E params D st a st' t :
  step E params D st a = Some st' -> st_ti st t = failed -> st_ti st' t = failed.
Proof.
  intros Hs Hf. destruct a as [t0|t0|t0|t0]; simpl in Hs;
    destruct (task_dec t0 t) as [<-|Hne];
    try (rewrite Hf in Hs; discriminate).
  - destruct (st_ti st t0); try discriminate;
      destruct (upstream_all_success D st t0); try discriminate;
      injection Hs as <-; simpl; rewrite upd_neq; auto.
  - destruct (st_ti st t0); try discriminate.
    destruct (execute_task E params D t0 st) as [st''|] eqn:Hx; [|discriminate].
    injection Hs as <-. unfold set_ti; simpl; rewrite upd_neq by exact Hne.
    destruct t0; simpl in Hx;
      repeat match type of Hx with
             | context [match ?x with Some _ => _ | None => _ end] => destruct x; [|discriminate]
             end; injection Hx as <-; exact Hf.
  - destruct (st_ti st t0); try discriminate.
    injection Hs as <-. unfold set_ti; simpl; rewrite upd_neq; auto.
  - destruct (st_ti st t0); try discriminate.
    destruct (upstream_any_failed D st t0); try discriminate.
    injection Hs as <-. unfold set_ti; simpl; rewrite upd_neq; auto.
Qed.

Lemma reachable_failed_stable E params D st st' t :
  reachable E params D st st' -> st_ti st t = failed -> st_ti st' t = failed.
Proof. induction 1; eauto using step_failed_stable. Qed.

Lemma quiescent_step E params D st a :
  quiescent E params D st = true -> step E params D st a = None.
Proof.
  unfold quiescent; rewrite forallb_forall; intros H.
  assert (Ha : In a all_actions) by (destruct a as [t|t|t|t]; destruct t; simpl; tauto).
  specialize (H a Ha). destruct (step E params D st a); [discriminate | reflexivity].
Qed.

Lemma ord_inj t1 t2 : ord t1 = ord t2 -> t1 = t2.
Proof. destruct t1, t2; simpl; congruence. Qed.

Lemma ord_notify_max t : ord t <= ord notify_slack.
Proof. destruct t; simpl; lia. Qed.

Lemma pred_between D t t' :
  d_edges D = dag_edges -> ord t < ord t' ->
  exists p, In p (upstream D t') /\ (p = t \/ ord t < ord p) /\ ord p < ord t'.
Proof.
  intros HD Hlt. rewrite (upstream_chain D HD).
  destruct t, t'; simpl in *; try lia; eexists; split; try (left; reflexivity);
    split; try (simpl; lia); first [left; reflexivity | right; simpl; lia].
Qed.

(** In a run where [t] failed and the scheduler has nothing left to do,
    every later task is [upstream_failed]. *)
Lemma quiescent_after_failed E params D log0 st t :
  d_edges D = dag_edges -> Inv E params D log0 st ->
  quiescent E params D st = true -> st_ti st t = failed ->
  forall t', ord t < ord t' -> st_ti st t' = upstream_failed.
Proof.
  intros HD I Hq Hf.
  assert (Hn : forall n t', ord t' <= n -> ord t < ord t' -> st_ti st t' = upstream_failed).
  { induction n as [|n IH]; intros t' Hle Hlt; [lia|].
    destruct (pred_between D t t' HD Hlt) as (p & Hp & Hpt & Hpo).
    assert (Hfl : failed_like (st_ti st p) = true).
    { destruct Hpt as [->|Hpt]; [rewrite Hf; reflexivity|].
      rewrite (IH p ltac:(lia) Hpt); reflexivity. }
    destruct (st_ti st t') eqn:Ht'; auto.
    1: { pose proof (quiescent_step _ _ _ _ (ActUpstreamFailed t') Hq) as Hs; simpl in Hs.
         rewrite Ht' in Hs.
         assert (Ha : upstream_any_failed D st t' = true)
           by (apply any_failed_spec; eauto).
         rewrite Ha in Hs; discriminate. }
    all: assert (Hs : st_ti st t = success)
        by (apply (inv_before _ _ _ _ _ I t'); [rewrite Ht'; reflexivity | exact Hlt]);
        congruence. }
  intros t'; apply (Hn (ord t')); lia.
Qed.

Definition count_starts (t : task) (tr : list event) : nat :=
  length (filter (fun e => match e with EvStart t' => task_eqb t t' | _ => false end) tr).

Lemma count_starts_snoc t tr e :
  count_starts t (tr ++ [e]) =
  count_starts t tr + match e with EvStart t' => if task_eqb t t' then 1 else 0 | _ => 0 end.
Proof.
  unfold count_starts; rewrite filter_app, length_app; simpl.
  destruct e; simpl; try (destruct (task_eqb t t0)); reflexivity.
Qed.

(** The try number of a task instance counts the tries started. *)
Lemma step_tries_count E params D st a st' :
  step E params D st a = Some st' ->
  (forall t, st_tries st t = count_starts t (st_trace st)) ->
  (forall t, st_tries st' t = count_starts t (st_trace st')).
Proof.
  intros Hs Hc t. destruct a as [t0|t0|t0|t0]; simpl in Hs.
  - destruct (st_ti st t0); try discriminate;
      destruct (upstream_all_success D st t0); try discriminate;
      injection Hs as <-; simpl; rewrite count_starts_snoc, <- Hc; unfold upd;
      (destruct (task_eqb t0 t) eqn:E1;
       [apply task_eqb_spec in E1; subst; rewrite task_eqb_refl; lia|]).
    all: (destruct (task_eqb t t0) eqn:E2; [apply task_eqb_spec in E2; subst;
           rewrite task_eqb_refl in E1; discriminate | lia]).
  - destruct (st_ti st t0); try discriminate.
    destruct (execute_task E params D t0 st) as [st''|] eqn:Hx; [|discriminate].
    injection Hs as <-. unfold set_ti; simpl. rewrite count_starts_snoc, Nat.add_0_r.
    destruct (execute_task_frame _ _ _ _ _ _ Hx) as (_ & Htries & Htrace & _).
    rewrite Htries, Htrace; apply Hc.
  - destruct (st_ti st t0); try discriminate.
    injection Hs as <-. unfold set_ti; simpl. rewrite count_starts_snoc, Nat.add_0_r. apply Hc.
  - destruct (st_ti st t0); try discriminate.
    destruct (upstream_any_failed D st t0); try discriminate.
    injection Hs as <-. unfold set_ti; simpl. rewrite count_starts_snoc, Nat.add_0_r. apply Hc.
Qed.

Lemma reachable_tries_count E params D st st' :
  reachable E params D st st' ->
  (forall t, st_tries st t = count_starts t (st_trace st)) ->
  (forall t, st_tries st' t = count_starts t (st_trace st')).
Proof. induction 1; eauto using step_tries_count. Qed.

(** The scheduler's run when every try succeeds. *)
Definition happy_path : list action :=
  [ActStart create_table_snowflake; ActSucceed create_table_snowflake;
   ActStart load_to_s3; ActSucceed load_to_s3;
   ActStart generate_presigned_url; ActSucceed generate_presigned_url;
   ActStart notify_slack; ActSucceed notify_slack].

Lemma happy_run E params D log req :
  account_monthly_balance_generation params = Some D ->
  presigned_url_request E params (pc_bucket_name (d_presign D))
    (pc_object_key (d_presign D)) (pc_expires_in_sec (d_presign D)) = Some req ->
  exists st, run_actions E params D (init_state log) happy_path = Some st /\
             dag_run_state D st = RunSuccess.
Proof.
  unfold account_monthly_balance_generation.
  destruct (dict_get params "snowflake_conn_id"), (dict_get params "bucket_s3"),
           (dict_get params "path"), (dict_get params "filename");
    intros H; try discriminate; injection H as <-; simpl; intros Hr.
  eexists; split.
  - cbn -[presigned_url_request]. rewrite Hr. reflexivity.
  - reflexivity.
Qed.

Lemma presigned_url_request_spec E params b k x r :
  presigned_url_request E params b k x = Some r ->
  pr_client_method r = "get_object" /\ pr_bucket r = b /\ pr_key r = k /\
  pr_expires_in r = x /\ c_service (pr_client r) = "s3" /\
  c_region_name (pr_client r) = "us-east-1" /\
  exists aws conn, dict_get params "aws_conn_id" = Some aws /\
    get_connection E aws = Some conn /\
    c_session (pr_client r) =
      {| s_access_key_id := conn_login conn;
         s_secret_access_key := conn_password conn;
         s_region_name := dict_get_default (conn_extra_dejson conn) "region_name" "us-east-1" |}.
Proof.
  unfold presigned_url_request.
  destruct (dict_get params "aws_conn_id") as [aws|]; [|discriminate].
  destruct (get_connection E aws) as [conn|] eqn:Hc; [|discriminate].
  intros H; injection H as <-; simpl; repeat split; eauto.
Qed.

Lemma reference_dag_eq dag_dir D :
  reference_dag dag_dir = Some D ->
  D = {| d_create := {| so_task_id := "create_table_snowflake";
                        so_sql := "create_table_snowflake.sql";
                        so_conn_id := "snowflake_conn_id";
                        so_params := PARAMS_DEFINITION dag_dir |};
         d_load := {| so_task_id := "load_to_s3"; so_sql := "load_to_s3.sql";
                      so_conn_id := "snowflake_conn_id";
                      so_params := PARAMS_DEFINITION dag_dir |};
         d_presign := {| pc_bucket_name := "terraform-nu-db-pg-48baa6b7";
                         pc_object_key := "output_files/account_monthly_balance.csv";
                         pc_expires_in_sec := 604800 |};
         d_edges := dag_edges |}.
Proof. unfold reference_dag; simpl; intros H; injection H as <-; reflexivity. Qed.

Lemma substring_all s : String.substring 0 (String.length s) s = s.
Proof. induction s as [|c s IH]; simpl; [reflexivity | rewrite IH; reflexivity]. Qed.

Lemma substring_skip p s n m :
  String.substring (String.length p + n) m (String.append p s) = String.substring n m s.
Proof. induction p as [|c p IH]; simpl; [reflexivity | exact IH]. Qed.

Lemma account_dag_spec params D :
  account_monthly_balance_generation params = Some D ->
  exists sf bucket path filename,
    dict_get params "snowflake_conn_id" = Some sf /\
    dict_get params "bucket_s3" = Some bucket /\
    dict_get params "path" = Some path /\
    dict_get params "filename" = Some filename /\
    D = {| d_create := {| so_task_id := "create_table_snowflake";
                          so_sql := "create_table_snowflake.sql";
                          so_conn_id := sf; so_params := params |};
           d_load := {| so_task_id := "load_to_s3"; so_sql := "load_to_s3.sql";
                        so_conn_id := sf; so_params := params |};
           d_presign := {| pc_bucket_name := bucket;
                           pc_object_key := String.append path (String.append "/" filename);
                           pc_expires_in_sec := 604800 |};
           d_edges := dag_edges |}.
Proof.
  unfold account_monthly_balance_generation.
  destruct (dict_get params "snowflake_conn_id"), (dict_get params "bucket_s3"),
           (dict_get params "path"), (dict_get params "filename");
    intros H; try discriminate; injection H as <-.
  do 4 eexists; repeat split; reflexivity.
Qed.

Lemma run_success_notify D st :
  d_edges D = dag_edges -> dag_run_state D st = RunSuccess ->
  st_ti st notify_slack = success.
Proof.
  intros HD. unfold dag_run_state; rewrite (leaves_chain D HD); simpl.
  destruct (st_ti st notify_slack); auto; simpl; intros H;
    repeat match type of H with context [if ?b then _ else _] => destruct b end;
    discriminate.
Qed.

Lemma run_effects E params D log0 st :
  account_monthly_balance_generation params = Some D ->
  reachable E params D (init_state log0) st ->
  exists new, st_effects st = log0 ++ new /\ Forall (allowed_effect E params D) new /\
    count_slack new = if ti_state_eqb (st_ti st notify_slack) success then 1 else 0.
Proof.
  intros Hb Hr.
  exact (inv_effects _ _ _ _ _ (Inv_reachable E params D (dag_edges_of _ _ Hb) log0 _ _ Hr
                                  (Inv_init E params D log0))).
Qed.

(** What one step does to the task instances and the try numbers. *)
Lemma step_ti E params D st a st' :
  step E params D st a = Some st' ->
  match a with
  | ActStart t =>
    (st_ti st t = no_status \/ st_ti st t = up_for_retry) /\
    upstream_all_success D st t = true /\
    st_ti st' = upd (st_ti st) t running /\
    st_tries st' = upd (st_tries st) t (S (st_tries st t))
  | ActSucceed t =>
    st_ti st t = running /\ execute_task E params D t st <> None /\
    st_ti st' = upd (st_ti st) t success /\ st_tries st' = st_tries st
  | ActFail t =>
    st_ti st t = running /\
    st_ti st' = upd (st_ti st) t (if eligible_to_retry t (st_tries st t)
                                  then up_for_retry else failed) /\
    st_tries st' = st_tries st
  | ActUpstreamFailed t =>
    st_ti st t = no_status /\ upstream_any_failed D st t = true /\
    st_ti st' = upd (st_ti st) t upstream_failed /\ st_tries st' = st_tries st
  end.
Proof.
  destruct a as [t|t|t|t]; simpl; intros Hs.
  - destruct (st_ti st t) eqn:Ht; try discriminate;
      destruct (upstream_all_success D st t) eqn:Hu; try discriminate;
      injection Hs as <-; simpl; (split; [auto|]); repeat split; auto.
  - destruct (st_ti st t) eqn:Ht; try discriminate.
    destruct (execute_task E params D t st) as [st''|] eqn:Hx; [|discriminate].
    injection Hs as <-.
    destruct (execute_task_frame _ _ _ _ _ _ Hx) as (Hti & Htries & _).
    unfold set_ti; simpl; rewrite Hti, Htries; repeat split; congruence.
  - destruct (st_ti st t) eqn:Ht; try discriminate.
    injection Hs as <-; unfold set_ti; simpl; auto.
  - destruct (st_ti st t) eqn:Ht; try discriminate.
    destruct (upstream_any_failed D st t) eqn:Hu; try discriminate.
    injection Hs as <-; unfold set_ti; simpl; auto.
Qed.

Lemma forallb_false_exists {A} (f : A -> bool) l :
  forallb f l = false -> exists x, In x l /\ f x = false.
Proof.
  induction l as [|a l IH]; simpl; [discriminate|].
  destruct (f a) eqn:Hf; simpl; intros H.
  - destruct (IH H) as (x & Hx & Hfx); eauto.
  - eauto.
Qed.

Lemma upstream_lt D t p : d_edges D = dag_edges -> In p (upstream D t) -> ord p < ord t.
Proof.
  intros HD Hp; rewrite (upstream_chain D HD) in Hp.
  destruct t; simpl in Hp; intuition (subst; simpl; lia).
Qed.

(** When no action is enabled, every task instance is finished. *)
Lemma quiescent_finished E params D log0 st :
  d_edges D = dag_edges -> Inv E params D log0 st -> quiescent E params D st = true ->
  forall t, finished (st_ti st t) = true.
Proof.
  intros HD I Hq.
  assert (Hn : forall n t, ord t < n -> finished (st_ti st t) = true).
  { induction n as [|n IH]; intros t Hlt; [lia|].
    assert (Hup : forall p, In p (upstream D t) -> ord p < n)
      by (intros p Hp; pose proof (upstream_lt D t p HD Hp); lia).
    destruct (st_ti st t) eqn:Ht; try reflexivity; exfalso.
    - destruct (upstream_all_success D st t) eqn:Ha.
      + pose proof (quiescent_step _ _ _ _ (ActStart t) Hq) as Hs; simpl in Hs.
        rewrite Ht, Ha in Hs; discriminate.
      + unfold upstream_all_success in Ha.
        destruct (forallb_false_exists _ _ Ha) as (p & Hp & Hnp).
        pose proof (IH p (Hup p Hp)) as Hfp.
        assert (Hany : upstream_any_failed D st t = true).
        { apply any_failed_spec. exists p; split; [exact Hp|].
          destruct (st_ti st p); simpl in *; congruence. }
        pose proof (quiescent_step _ _ _ _ (ActUpstreamFailed t) Hq) as Hs; simpl in Hs.
        rewrite Ht, Hany in Hs; discriminate.
    - pose proof (quiescent_step _ _ _ _ (ActFail t) Hq) as Hs; simpl in Hs.
      rewrite Ht in Hs; discriminate.
    - assert (Ha : upstream_all_success D st t = true).
      { apply all_success_spec; intros p Hp.
        apply (inv_before _ _ _ _ _ I t p);
          [rewrite Ht; reflexivity | exact (upstream_lt D t p HD Hp)]. }
      pose proof (quiescent_step _ _ _ _ (ActStart t) Hq) as Hs; simpl in Hs.
      rewrite Ht, Ha in Hs; discriminate. }
  intros t; apply (Hn (S (ord t))); lia.
Qed.

(** An [upstream_failed] task has a failed task before it. *)
Lemma uf_origin E params D log0 st :
  d_edges D = dag_edges -> Inv E params D log0 st ->
  forall t, st_ti st t = upstream_failed -> exists u, ord u < ord t /\ st_ti st u = failed.
Proof.
  intros HD I.
  assert (Hn : forall n t, ord t < n -> st_ti st t = upstream_failed ->
                 exists u, ord u < ord t /\ st_ti st u = failed).
  { induction n as [|n IH]; intros t Hlt Ht; [lia|].
    destruct (proj1 (any_failed_spec D st t) (inv_uf _ _ _ _ _ I t Ht)) as (p & Hp & Hf).
    pose proof (upstream_lt D t p HD Hp) as Hpt.
    destruct (st_ti st p) eqn:Hsp; try discriminate.
    - exists p; auto.
    - destruct (IH p ltac:(lia) Hsp) as (u & Hu & Huf). exists u; split; [lia | exact Huf]. }
  intros t; apply (Hn (S (ord t))); lia.
Qed.

Lemma dag_run_state_final D st :
  d_edges D = dag_edges -> (forall t, finished (st_ti st t) = true) ->
  dag_run_state D st =
    if ti_state_eqb (st_ti st notify_slack) success then RunSuccess else RunFailed.
Proof.
  intros HD Hf. unfold dag_run_state. rewrite (leaves_chain D HD).
  replace (forallb (fun t => finished (st_ti st t)) all_tasks) with true
    by (symmetry; apply forallb_forall; intros t _; apply Hf).
  pose proof (Hf notify_slack) as Hn. simpl.
  destruct (st_ti st notify_slack); simpl in *; try discriminate; reflexivity.
Qed.

Lemma sum_tasks_lt (g h : task -> nat) t :
  (forall u, u <> t -> g u = h u) -> g t < h t ->
  list_sum (map g all_tasks) < list_sum (map h all_tasks).
Proof.
  intros Heq Hlt; simpl.
  destruct t; rewrite ?(Heq create_table_snowflake), ?(Heq load_to_s3),
    ?(Heq generate_presigned_url), ?(Heq notify_slack) by discriminate; lia.
Qed.

(** Every step uses up some of the steps left. *)
Lemma potential_step E params D log0 st a st' :
  Inv E params D log0 st -> step E params D st a = Some st' -> potential st' < potential st.
Proof.
  intros I Hs. pose proof (step_ti _ _ _ _ _ _ Hs) as H.
  pose proof (inv_tries _ _ _ _ _ I) as Htr.
  unfold potential.
  destruct a as [t|t|t|t]; apply (sum_tasks_lt _ _ t);
    try (intros u Hu; cbv beta;
         destruct H as (_ & _ & Hti & Htries) || destruct H as (_ & Hti & Htries);
         rewrite Hti, Htries; rewrite ?upd_neq by congruence; reflexivity);
    cbv beta; specialize (Htr t).
  - destruct H as (Hst & _ & Hti & Htries); rewrite Hti, Htries, !upd_eq.
    destruct Hst as [Hst|Hst]; rewrite Hst in *; simpl in Htr; cbv beta iota delta [ti_potential];
      unfold task_retries, default_retries in *; lia.
  - destruct H as (Hst & _ & Hti & Htries); rewrite Hti, Htries, upd_eq.
    rewrite Hst in *; simpl in Htr; cbv beta iota delta [ti_potential]; unfold task_retries, default_retries in *; lia.
  - destruct H as (Hst & Hti & Htries); rewrite Hti, Htries, upd_eq.
    rewrite Hst in *; simpl in Htr; cbv beta iota delta [ti_potential].
    destruct (eligible_to_retry t (st_tries st t));
      unfold task_retries, default_retries in *; lia.
  - destruct H as (Hst & _ & Hti & Htries); rewrite Hti, Htries, upd_eq.
    rewrite Hst in *; simpl in Htr; cbv beta iota delta [ti_potential]; unfold task_retries, default_retries in *; lia.
Qed.

Lemma run_actions_potential E params D log0 acts st st' :
  d_edges D = dag_edges -> Inv E params D log0 st ->
  run_actions E params D st acts = Some st' -> length acts <= potential st.
Proof.
  intros HD; revert st; induction acts as [|a acts IH]; simpl; intros st I H; [lia|].
  destruct (step E params D st a) as [s1|] eqn:Hs; [|discriminate].
  pose proof (potential_step _ _ _ _ _ _ _ I Hs).
  pose proof (IH s1 (Inv_step E params D HD log0 st a s1 I Hs) H). lia.
Qed.



(** ** The calls a run makes, in order *)

Section EffectsTrace.
Variable E : env.
Variable params : dict.
Variable D : dag_def.
Hypothesis HD : d_edges D = dag_edges.
Variable log0 : list effect.

(** The signing request built by generate_presigned_url for the DAG's call. *)
Definition dag_request : option presign_request :=
  presigned_url_request E params (pc_bucket_name (d_presign D))
    (pc_object_key (d_presign D)) (pc_expires_in_sec (d_presign D)).

(** The outside-world call made when a task's try returns. *)
Definition task_effects (t : task) : list effect :=
  match t with
  | create_table_snowflake => [ESql (d_create D)]
  | load_to_s3 => [ESql (d_load D)]
  | generate_presigned_url =>
    match dag_request with Some r => [EPresign r] | None => [] end
  | notify_slack =>
    match dag_request with
    | Some r => [ESlack (notify_slack_operator (sign E r))]
    | None => []
    end
  end.

Definition succeeded_effects (ti : task -> ti_state) : list effect :=
  concat (map (fun t => if ti_state_eqb (ti t) success then task_effects t else [])
              all_tasks).

(** All the calls of a run in which every task succeeds. *)
Definition full_effects : list effect :=
  [ESql (d_create D); ESql (d_load D)] ++
  match dag_request with
  | Some r => [EPresign r; ESlack (notify_slack_operator (sign E r))]
  | None => []
  end.

Definition EffInv (st : state) : Prop :=
  st_effects st = log0 ++ succeeded_effects (st_ti st) /\
  st_xcom st = if ti_state_eqb (st_ti st generate_presigned_url) success
               then option_map (sign E) dag_request else None.

Lemma EffInv_init : EffInv (init_state log0).
Proof. split; simpl; [rewrite app_nil_r|]; reflexivity. Qed.

Lemma succeeded_effects_ext ti ti' :
  (forall t, ti_state_eqb (ti' t) success = ti_state_eqb (ti t) success) ->
  succeeded_effects ti' = succeeded_effects ti.
Proof. intros H; unfold succeeded_effects; simpl; rewrite !H; reflexivity. Qed.

Lemma EffInv_step st a st' :
  Inv E params D log0 st -> EffInv st -> step E params D st a = Some st' -> EffInv st'.
Proof.
  intros I [He Hx] Hs.
  (* actions other than a returning try keep which tasks succeeded *)
  assert (Hkeep : forall t s, open_state (st_ti st t) = true -> s <> success ->
            forall t', ti_state_eqb (upd (st_ti st) t s t') success =
                       ti_state_eqb (st_ti st t') success).
  { intros t s Ho Hns t'. destruct (task_dec t t') as [<-|Hne].
    - rewrite upd_eq. destruct s, (st_ti st t); try discriminate; try congruence; reflexivity.
    - rewrite upd_neq by exact Hne; reflexivity. }
  destruct a as [t|t|t|t]; simpl in Hs.
  - destruct (st_ti st t) eqn:Ht; try discriminate;
      destruct (upstream_all_success D st t); try discriminate; injection Hs as <-;
      (split; simpl; [rewrite (succeeded_effects_ext _ _ (Hkeep t running ltac:(rewrite Ht; reflexivity)
                                                    ltac:(discriminate))); exact He
                     | rewrite Hkeep; [exact Hx | rewrite Ht; reflexivity | discriminate]]).
  - destruct (st_ti st t) eqn:Ht; try discriminate.
    destruct (execute_task E params D t st) as [st''|] eqn:Hxe; [|discriminate].
    injection Hs as <-. unfold set_ti.
    (* every task before [t] succeeded, none after it started *)
    assert (Hb : forall u, ord u < ord t -> st_ti st u = success)
      by (intros u Hu; apply (inv_before _ _ _ _ _ I t u); [rewrite Ht; reflexivity | exact Hu]).
    assert (Ha : forall u, ord t < ord u -> st_ti st u = no_status)
      by (intros u Hu; apply (later_fresh _ _ _ _ _ I t); [rewrite Ht; reflexivity | exact Hu]).
    destruct t; simpl in Hxe;
      [injection Hxe as <- | injection Hxe as <- | fold dag_request in Hxe;
       destruct dag_request as [r|] eqn:Hr; [|discriminate]; injection Hxe as <-
      | destruct (st_xcom st) as [url|] eqn:Hu; [|discriminate]; injection Hxe as <-];
      unfold EffInv, succeeded_effects, task_effects, upd in *; simpl in *;
      repeat match goal with
             | |- context [st_ti st ?u] =>
               first [rewrite Ht | rewrite (Hb u) by (simpl; lia) | rewrite (Ha u) by (simpl; lia)]
             | H : context [st_ti st ?u] |- _ =>
               tryif constr_eq H Ht then fail else
               first [rewrite Ht in H | rewrite (Hb u) in H by (simpl; lia)
                     | rewrite (Ha u) in H by (simpl; lia)]
             end; simpl in *.
    + rewrite He, Hx, !app_nil_r; split; reflexivity.
    + rewrite He, Hx, <- app_assoc; split; reflexivity.
    + rewrite Hr in *. rewrite He, <- app_assoc; split; reflexivity.
    + destruct dag_request as [r|]; simpl in *; [|discriminate].
      injection Hx as ->. rewrite He, <- app_assoc; split; [reflexivity | reflexivity].
  - destruct (st_ti st t) eqn:Ht; try discriminate. injection Hs as <-. unfold set_ti.
    assert (Hns : (if eligible_to_retry t (st_tries st t) then up_for_retry else failed) <> success)
      by (destruct (eligible_to_retry _ _); discriminate).
    split; simpl.
    + rewrite (succeeded_effects_ext _ _ (Hkeep t _ ltac:(rewrite Ht; reflexivity) Hns)); exact He.
    + rewrite Hkeep; [exact Hx | rewrite Ht; reflexivity | exact Hns].
  - destruct (st_ti st t) eqn:Ht; try discriminate.
    destruct (upstream_any_failed D st t); try discriminate. injection Hs as <-. unfold set_ti.
    split; simpl.
    + rewrite (succeeded_effects_ext _ _ (Hkeep t upstream_failed ltac:(rewrite Ht; reflexivity)
                                          ltac:(discriminate))); exact He.
    + rewrite Hkeep; [exact Hx | rewrite Ht; reflexivity | discriminate].
Qed.

Lemma EffInv_reachable st :
  reachable E params D (init_state log0) st -> EffInv st /\ Inv E params D log0 st.
Proof.
  intros Hr. remember (init_state log0) as s0.
  assert (H0 : EffInv s0 /\ Inv E params D log0 s0) by (subst; split; [apply EffInv_init | apply Inv_init]).
  clear Heqs0. induction Hr as [st|st a st1 st2 Hs Hr IH]; auto.
  apply IH. destruct H0 as [He I].
  split; [exact (EffInv_step _ _ _ I He Hs) | exact (Inv_step _ _ _ HD _ _ _ _ I Hs)].
Qed.

(** The tasks that succeeded are the first ones of the chain, so their
    calls are a prefix of the calls of a full run. *)
Lemma succeeded_prefix st : Inv E params D log0 st ->
  exists k, succeeded_effects (st_ti st) = firstn k full_effects.
Proof.
  intros I.
  assert (Hb : forall t u, ti_state_eqb (st_ti st t) success = true -> ord u < ord t ->
                 ti_state_eqb (st_ti st u) success = true).
  { intros t u Ht Hu. apply ti_state_eqb_spec in Ht. apply ti_state_eqb_spec.
    apply (inv_before _ _ _ _ _ I t u); [rewrite Ht; reflexivity | exact Hu]. }
  unfold succeeded_effects, full_effects, task_effects.
  destruct dag_request as [r|]; simpl;
  destruct (ti_state_eqb (st_ti st create_table_snowflake) success) eqn:H0,
           (ti_state_eqb (st_ti st load_to_s3) success) eqn:H1,
           (ti_state_eqb (st_ti st generate_presigned_url) success) eqn:H2,
           (ti_state_eqb (st_ti st notify_slack) success) eqn:H3;
  try (exfalso; match goal with
       | H : ti_state_eqb (st_ti st ?t) success = true,
         H' : ti_state_eqb (st_ti st ?u) success = false |- _ =>
         rewrite (Hb t u H) in H' by (simpl; lia); discriminate
       end);
  first [exists 0; reflexivity | exists 1; reflexivity | exists 2; reflexivity
        | exists 3; reflexivity | exists 4; reflexivity].
Qed.

(** Without a signing request, neither generate_presigned_url nor
    notify_slack ever succeeds. *)
Lemma no_request_reachable st :
  dag_request = None -> reachable E params D (init_state log0) st ->
  st_ti st generate_presigned_url <> success /\ st_ti st notify_slack <> success.
Proof.
  intros Hn Hr. remember (init_state log0) as s0.
  assert (H0 : (st_ti s0 generate_presigned_url <> success /\
                st_ti s0 notify_slack <> success) /\
               EffInv s0 /\ Inv E params D log0 s0)
    by (subst; split; [split; discriminate | split; [apply EffInv_init | apply Inv_init]]).
  clear Heqs0. induction Hr as [st|st a st1 st2 Hs Hr IH]; [exact (proj1 H0)|].
  apply IH. destruct H0 as ((Hp & Hq) & He & I).
  split; [|split; [exact (EffInv_step _ _ _ I He Hs) | exact (Inv_step _ _ _ HD _ _ _ _ I Hs)]].
  pose proof (step_ti _ _ _ _ _ _ Hs) as Hst.
  destruct a as [t|t|t|t]; simpl in Hst.
  - destruct Hst as (_ & _ & Hti & _); rewrite Hti; unfold upd;
      split; [destruct (task_eqb t generate_presigned_url) | destruct (task_eqb t notify_slack)];
      auto; discriminate.
  - destruct Hst as (_ & Hx & Hti & _); rewrite Hti.
    destruct t; simpl in Hx.
    + unfold upd; simpl; split; assumption.
    + unfold upd; simpl; split; assumption.
    + fold dag_request in Hx. rewrite Hn in Hx. contradiction.
    + destruct He as [_ Hxc].
      assert (Hx0 : st_xcom st = None)
        by (rewrite Hxc, Hn; destruct (ti_state_eqb _ _); reflexivity).
      rewrite Hx0 in Hx. contradiction.
  - destruct Hst as (_ & Hti & _); rewrite Hti; unfold upd;
      split; [destruct (task_eqb t generate_presigned_url) | destruct (task_eqb t notify_slack)];
      auto; destruct (eligible_to_retry _ _); discriminate.
  - destruct Hst as (_ & _ & Hti & _); rewrite Hti; unfold upd;
      split; [destruct (task_eqb t generate_presigned_url) | destruct (task_eqb t notify_slack)];
      auto; discriminate.
Qed.

End EffectsTrace.

(** ** A concrete deployment, used to exercise the theorems *)

Definition demo_dag_dir : string :=
  "/opt/airflow/dags/account_monthly_balance_generation".

Definition demo_params : dict := PARAMS_DEFINITION demo_dag_dir.

(** An AWS connection whose extras name a region other than us-east-1. *)
Definition demo_conn : connection :=
  {| conn_login := "AKIAEXAMPLEKEY"; conn_password := "example-secret";
     conn_extra_dejson := [("region_name", "eu-west-1")] |}.

Definition demo_env : env :=
  {| get_connection := fun id => if String.eqb id "aws_conn_id" then Some demo_conn else None;
     sign := fun r => String.append "https://s3.amazonaws.com/"
                        (String.append (pr_bucket r) (String.append "/" (pr_key r))) |}.

Definition reference_dag_some (dag_dir : string) :
  {D | reference_dag dag_dir = Some D} := exist _ _ eq_refl.

Definition demo_dag : dag_def := proj1_sig (reference_dag_some demo_dag_dir).

Definition demo_run (acts : list action) : state :=
  match run_actions demo_env demo_params demo_dag (init_state []) acts with
  | Some st => st
  | None => init_state []
  end.

(** [load_to_s3] fails on each of its tries; the rest of the chain is
    marked [upstream_failed]. *)
Definition load_fails_path : list action :=
  [ActStart create_table_snowflake; ActSucceed create_table_snowflake;
   ActStart load_to_s3; ActFail load_to_s3; ActStart load_to_s3; ActFail load_to_s3;
   ActStart load_to_s3; ActFail load_to_s3; ActStart load_to_s3; ActFail load_to_s3;
   ActUpstreamFailed generate_presigned_url; ActUpstreamFailed notify_slack].

Definition load_fails_prefix : list action := firstn 10 load_fails_path.

(** One retry of [create_table_snowflake], then every try succeeds. *)
Definition retry_path : list action :=
  [ActStart create_table_snowflake; ActFail create_table_snowflake] ++ happy_path.

(** [create_table_snowflake] fails on each of its tries. *)
Definition create_fails_path : list action :=
  [ActStart create_table_snowflake; ActFail create_table_snowflake;
   ActStart create_table_snowflake; ActFail create_table_snowflake;
   ActStart create_table_snowflake; ActFail create_table_snowflake;
   ActStart create_table_snowflake; ActFail create_table_snowflake].

(** The same deployment before the AWS connection has been created. *)
Definition demo_env_noconn : env :=
  {| get_connection := fun _ => None; sign := sign demo_env |}.

Definition demo_noconn_run (acts : list action) : state :=
  match run_actions demo_env_noconn demo_params demo_dag (init_state []) acts with
  | Some st => st
  | None => init_state []
  end.

(** Without the AWS connection: generate_presigned_url raises on each of
    its tries and notify_slack is marked [upstream_failed]. *)
Definition noconn_path : list action :=
  [ActStart create_table_snowflake; ActSucceed create_table_snowflake;
   ActStart load_to_s3; ActSucceed load_to_s3;
   ActStart generate_presigned_url; ActFail generate_presigned_url;
   ActStart generate_presigned_url; ActFail generate_presigned_url;
   ActStart generate_presigned_url; ActFail generate_presigned_url;
   ActStart generate_presigned_url; ActFail generate_presigned_url;
   ActUpstreamFailed notify_slack].

(** Every task fails three tries and succeeds on its last one. *)
Definition last_try_path : list action :=
  flat_map (fun t => [ActStart t; ActFail t; ActStart t; ActFail t;
                      ActStart t; ActFail t; ActStart t; ActSucceed t]) all_tasks.

(** ** Claims *)

(** C1: the four tasks run strictly one after the other, in the order
    create_table_snowflake, load_to_s3, generate_presigned_url,
    notify_slack: at most one task instance is running at any time, a task
    is only started once every earlier task has succeeded (so load_to_s3
    only after create_table_snowflake succeeded), and no event of a task
    comes after an event of a later task. *)
Theorem C1_sequential_order E params D log0 st :
  account_monthly_balance_generation params = Some D ->
  reachable E params D (init_state log0) st ->
  (forall t1 t2, st_ti st t1 = running -> st_ti st t2 = running -> t1 = t2) /\
  (forall pre t post, st_trace st = pre ++ EvStart t :: post ->
     forall u, ord u < ord t -> In (EvSuccess u) pre) /\
  (forall pre e post, st_trace st = pre ++ e :: post ->
     forall e', In e' pre -> ord (ev_task e') <= ord (ev_task e)).
Proof.
  intros Hb Hr. pose proof (dag_edges_of _ _ Hb) as HD.
  pose proof (Inv_reachable E params D HD log0 _ _ Hr (Inv_init E params D log0)) as I.
  split; [|split].
  - intros t1 t2 H1 H2.
    destruct (Nat.lt_trichotomy (ord t1) (ord t2)) as [Hl|[He|Hl]].
    + pose proof (inv_before _ _ _ _ _ I t2 t1 ltac:(rewrite H2; reflexivity) Hl). congruence.
    + exact (ord_inj _ _ He).
    + pose proof (inv_before _ _ _ _ _ I t1 t2 ltac:(rewrite H1; reflexivity) Hl). congruence.
  - exact (inv_start_after _ _ _ _ _ I).
  - exact (inv_sorted _ _ _ _ _ I).
Qed.

(** C2: once a task has failed for good, no later task is ever started,
    the failed task stays failed, the dag run can never be successful, and
    when the scheduler has nothing left to do the dag run is failed. *)
Theorem C2_failure_halts E params D log0 st t t' st' :
  account_monthly_balance_generation params = Some D ->
  reachable E params D (init_state log0) st ->
  st_ti st t = failed -> ord t < ord t' ->
  reachable E params D st st' ->
  st_ti st' t = failed /\ ~ In (EvStart t') (st_trace st') /\
  dag_run_state D st' <> RunSuccess /\
  (quiescent E params D st' = true -> dag_run_state D st' = RunFailed).
Proof.
  intros Hb Hr Hf Hlt Hr'. pose proof (dag_edges_of _ _ Hb) as HD.
  pose proof (Inv_reachable E params D HD log0 _ _ (reachable_trans _ _ _ _ _ _ Hr Hr')
                (Inv_init E params D log0)) as I.
  pose proof (reachable_failed_stable _ _ _ _ _ _ Hr' Hf) as Hf'.
  (* tasks after [t] have not been started *)
  assert (Hlater : forall u, ord t < ord u ->
            st_ti st' u = no_status \/ st_ti st' u = upstream_failed).
  { intros u Hu. destruct (st_ti st' u) eqn:Hs; auto;
      assert (Hsucc : st_ti st' t = success)
        by (apply (inv_before _ _ _ _ _ I u); [rewrite Hs; reflexivity | exact Hu]);
      congruence. }
  assert (Hnot : t <> notify_slack)
    by (intros ->; pose proof (ord_notify_max t'); lia).
  assert (Hn : ord t < ord notify_slack)
    by (pose proof (ord_notify_max t); destruct (Nat.eq_dec (ord t) (ord notify_slack)) as [E1|];
        [apply ord_inj in E1; contradiction | lia]).
  split; [exact Hf'|split; [|split]].
  - destruct (Hlater t' Hlt) as [Hs|Hs].
    + intros Hin. exact (inv_fresh _ _ _ _ _ I t' Hs _ Hin eq_refl).
    + exact (inv_uf_nostart _ _ _ _ _ I t' Hs).
  - unfold dag_run_state; rewrite (leaves_chain D HD).
    destruct (Hlater notify_slack Hn) as [Hs|Hs]; simpl; rewrite Hs; simpl;
      rewrite ?andb_false_r;
      repeat match goal with |- context [if ?b then _ else _] => destruct b end;
      discriminate.
  - intros Hq.
    pose proof (quiescent_after_failed E params D log0 st' t HD I Hq Hf') as Hu.
    unfold dag_run_state; rewrite (leaves_chain D HD).
    assert (Hfin : forall u, finished (st_ti st' u) = true).
    { intros u. destruct (Nat.lt_trichotomy (ord u) (ord t)) as [H1|[H1|H1]].
      - rewrite (inv_before _ _ _ _ _ I t u ltac:(rewrite Hf'; reflexivity) H1); reflexivity.
      - apply ord_inj in H1; subst; rewrite Hf'; reflexivity.
      - rewrite (Hu u H1); reflexivity. }
    simpl; rewrite !Hfin, (Hu notify_slack Hn); reflexivity.
Qed.

(** C3: with the reference configuration the link generator is called with
    bucket terraform-nu-db-pg-48baa6b7, key path ++ "/" ++ filename =
    output_files/account_monthly_balance.csv and 604800 seconds, and every
    signing request of a run is a get_object request for exactly that
    bucket, key and expiration. *)
Theorem C3_presigned_url_call E dag_dir D log0 st :
  reference_dag dag_dir = Some D ->
  reachable E (PARAMS_DEFINITION dag_dir) D (init_state log0) st ->
  pc_bucket_name (d_presign D) = "terraform-nu-db-pg-48baa6b7" /\
  pc_object_key (d_presign D) =
    String.append "output_files" (String.append "/" "account_monthly_balance.csv") /\
  pc_object_key (d_presign D) = "output_files/account_monthly_balance.csv" /\
  pc_expires_in_sec (d_presign D) = 604800%Z /\
  exists new, st_effects st = log0 ++ new /\
    forall r, In (EPresign r) new ->
      pr_client_method r = "get_object" /\
      pr_bucket r = "terraform-nu-db-pg-48baa6b7" /\
      pr_key r = "output_files/account_monthly_balance.csv" /\
      pr_expires_in r = 604800%Z.
Proof.
  intros Hb Hr. pose proof (reference_dag_eq _ _ Hb) as HDe.
  pose proof (Inv_reachable E _ D ltac:(rewrite HDe; reflexivity) log0 _ _ Hr
                (Inv_init E _ D log0)) as I.
  destruct (inv_effects _ _ _ _ _ I) as (new & Hl & Hf & _).
  rewrite HDe in Hf |- *; simpl.
  repeat split; auto. exists new; split; auto.
  intros r Hin. rewrite Forall_forall in Hf. specialize (Hf _ Hin); simpl in Hf.
  apply presigned_url_request_spec in Hf as (H1 & H2 & H3 & H4 & _).
  repeat split; assumption.
Qed.

(** C4: the message posted for a URL is the fixed prefix, a newline, then
    the URL unchanged; the URL can be read back from the message. *)
Theorem C4_slack_message url :
  sw_message (notify_slack_operator url) =
    String.append "✅ CSV file for monthly account balance is available at:"
      (String.append (String (Ascii.ascii_of_nat 10) EmptyString) url) /\
  String.prefix slack_prefix (sw_message (notify_slack_operator url)) = true /\
  String.substring (String.length slack_prefix + 1) (String.length url)
    (sw_message (notify_slack_operator url)) = url.
Proof.
  split; [reflexivity|split].
  - unfold notify_slack_operator, slack_message; simpl.
    unfold slack_prefix; simpl. reflexivity.
  - unfold notify_slack_operator, slack_message; cbn [sw_message].
    rewrite substring_skip. simpl. apply substring_all.
Qed.

(** C5 (as amended): the boto3 session of the link generator is built from
    the AWS connection named by the configuration: its login as access key,
    its password as secret, and its extra region_name (us-east-1 when
    absent) as session region; the S3 client that signs the URL uses that
    session but is created with region us-east-1. *)
Theorem C5_connection_credentials E params b k x aws conn :
  dict_get params "aws_conn_id" = Some aws ->
  get_connection E aws = Some conn ->
  exists r, presigned_url_request E params b k x = Some r /\
    s_access_key_id (c_session (pr_client r)) = conn_login conn /\
    s_secret_access_key (c_session (pr_client r)) = conn_password conn /\
    s_region_name (c_session (pr_client r)) =
      dict_get_default (conn_extra_dejson conn) "region_name" "us-east-1" /\
    c_region_name (pr_client r) = "us-east-1".
Proof.
  intros Ha Hc. unfold presigned_url_request; rewrite Ha, Hc.
  eexists; split; [reflexivity | simpl; repeat split].
Qed.

(** C6: a successful run can always be started again (nothing guards
    against a second notification), each successful run posts exactly one
    Slack message, and two successful runs in a row post two. *)
Theorem C6_notification_not_idempotent E params D req :
  account_monthly_balance_generation params = Some D ->
  presigned_url_request E params (pc_bucket_name (d_presign D))
    (pc_object_key (d_presign D)) (pc_expires_in_sec (d_presign D)) = Some req ->
  (forall log, exists st, reachable E params D (init_state log) st /\
                          dag_run_state D st = RunSuccess) /\
  (forall log st, reachable E params D (init_state log) st ->
     dag_run_state D st = RunSuccess ->
     count_slack (st_effects st) = count_slack log + 1) /\
  (forall log st1 st2,
     reachable E params D (init_state log) st1 -> dag_run_state D st1 = RunSuccess ->
     reachable E params D (init_state (st_effects st1)) st2 ->
     dag_run_state D st2 = RunSuccess ->
     count_slack (st_effects st2) = count_slack log + 2).
Proof.
  intros Hb Hq. pose proof (dag_edges_of _ _ Hb) as HD.
  assert (Hone : forall log st, reachable E params D (init_state log) st ->
                   dag_run_state D st = RunSuccess ->
                   count_slack (st_effects st) = count_slack log + 1).
  { intros log st Hr Hs.
    destruct (run_effects E params D log st Hb Hr) as (new & Hl & _ & Hc).
    rewrite (run_success_notify D st HD Hs) in Hc; simpl in Hc.
    rewrite Hl, count_slack_app, Hc; reflexivity. }
  split; [|split; [exact Hone|]].
  - intros log. destruct (happy_run E params D log req Hb Hq) as (st & Hrun & Hs).
    exists st; split; [exact (run_actions_reachable _ _ _ _ _ _ Hrun) | exact Hs].
  - intros log st1 st2 Hr1 Hs1 Hr2 Hs2.
    rewrite (Hone _ _ Hr2 Hs2), (Hone _ _ Hr1 Hs1); lia.
Qed.

(** C7 (as amended): every task takes retries = 3 from the DAG's
    default_args, so a task is tried at most 4 times (one try and three
    retries), and a task that failed for good was tried exactly 4 times. *)
Theorem C7_retries_uniform E params D log0 st t :
  account_monthly_balance_generation params = Some D ->
  reachable E params D (init_state log0) st ->
  task_retries t = 3 /\
  count_starts t (st_trace st) <= task_retries t + 1 /\
  (st_ti st t = failed -> count_starts t (st_trace st) = task_retries t + 1).
Proof.
  intros Hb Hr.
  pose proof (Inv_reachable E params D (dag_edges_of _ _ Hb) log0 _ _ Hr
                (Inv_init E params D log0)) as I.
  pose proof (reachable_tries_count _ _ _ _ _ Hr ltac:(reflexivity) t) as Hc.
  pose proof (inv_tries _ _ _ _ _ I t) as Ht. rewrite <- Hc.
  split; [reflexivity|].
  destruct (st_ti st t); simpl in Ht; unfold task_retries, default_retries in *;
    split; try lia; discriminate.
Qed.

(** C8: one configuration mapping serves the whole run: both SQL tasks
    carry it as their params and take the same snowflake_conn_id from it,
    the link generator's bucket and key come from it, and every call made
    during a run uses those values and the AWS connection it names. *)
Theorem C8_single_configuration E params D log0 st :
  account_monthly_balance_generation params = Some D ->
  reachable E params D (init_state log0) st ->
  so_params (d_create D) = params /\ so_params (d_load D) = params /\
  so_conn_id (d_create D) = so_conn_id (d_load D) /\
  dict_get params "snowflake_conn_id" = Some (so_conn_id (d_create D)) /\
  dict_get params "bucket_s3" = Some (pc_bucket_name (d_presign D)) /\
  (exists path filename, dict_get params "path" = Some path /\
     dict_get params "filename" = Some filename /\
     pc_object_key (d_presign D) = String.append path (String.append "/" filename)) /\
  exists new, st_effects st = log0 ++ new /\
    (forall op, In (ESql op) new ->
       so_params op = params /\ dict_get params "snowflake_conn_id" = Some (so_conn_id op)) /\
    (forall r, In (EPresign r) new ->
       pr_bucket r = pc_bucket_name (d_presign D) /\ pr_key r = pc_object_key (d_presign D) /\
       exists aws conn, dict_get params "aws_conn_id" = Some aws /\
         get_connection E aws = Some conn /\
         s_access_key_id (c_session (pr_client r)) = conn_login conn).
Proof.
  intros Hb Hr.
  destruct (run_effects E params D log0 st Hb Hr) as (new & Hl & Hf & _).
  destruct (account_dag_spec _ _ Hb) as (sf & bucket & path & filename & Hsf & Hbk & Hp & Hfn & ->).
  simpl. repeat split; auto.
  { exists path, filename; auto. }
  exists new; split; [exact Hl|]. rewrite Forall_forall in Hf. split.
  - intros op Hin. specialize (Hf _ Hin); simpl in Hf.
    destruct Hf as [-> | ->]; simpl; auto.
  - intros r Hin. specialize (Hf _ Hin); simpl in Hf.
    apply presigned_url_request_spec in Hf as (_ & Hb' & Hk & _ & _ & _ & aws & conn & Ha & Hc & Hs).
    repeat split; auto. exists aws, conn; repeat split; auto. rewrite Hs; reflexivity.
Qed.

(** C9: the session region is the connection's region_name, us-east-1 when
    the extras have none, while the client that signs the URL is always
    created for us-east-1, whatever region the connection holds. *)
Theorem C9_signing_region E params b k x aws conn :
  dict_get params "aws_conn_id" = Some aws ->
  get_connection E aws = Some conn ->
  exists r, presigned_url_request E params b k x = Some r /\
    c_region_name (pr_client r) = "us-east-1" /\
    (dict_get (conn_extra_dejson conn) "region_name" = None ->
     s_region_name (c_session (pr_client r)) = "us-east-1").
Proof.
  intros Ha Hc. unfold presigned_url_request; rewrite Ha, Hc.
  eexists; split; [reflexivity|]. simpl; split; [reflexivity|].
  unfold dict_get_default; intros ->; reflexivity.
Qed.

(** C10: the Slack webhook connection id and the username are constants of
    notify_slack: the reference configuration has no key for them, and in
    a run under any configuration every message is posted through
    slack_webhook_conn as airflow-bot, while the warehouse connection id is
    the one the configuration gives. *)
Theorem C10_slack_constants E dag_dir params D log0 st :
  account_monthly_balance_generation params = Some D ->
  reachable E params D (init_state log0) st ->
  map fst (PARAMS_DEFINITION dag_dir) =
    ["snowflake_conn_id"; "aws_conn_id"; "queries_base_path"; "db"; "schema_origin";
     "schema_destination"; "stage"; "path"; "bucket_s3"; "filename"; "files_dir"] /\
  dict_get params "snowflake_conn_id" = Some (so_conn_id (d_create D)) /\
  exists new, st_effects st = log0 ++ new /\
    forall op, In (ESlack op) new ->
      sw_webhook_conn_id op = "slack_webhook_conn" /\ sw_username op = "airflow-bot".
Proof.
  intros Hb Hr.
  destruct (run_effects E params D log0 st Hb Hr) as (new & Hl & Hf & _).
  split; [reflexivity|split].
  - destruct (account_dag_spec _ _ Hb) as (sf & bk & pa & fn & Hsf & _ & _ & _ & ->); exact Hsf.
  - exists new; split; [exact Hl|]. rewrite Forall_forall in Hf.
    intros op Hin. destruct (Hf _ Hin) as (url & ->). split; reflexivity.
Qed.

(** ** Witnesses and counterexamples *)

Lemma C1_witness :
  account_monthly_balance_generation demo_params = Some demo_dag /\
  reachable demo_env demo_params demo_dag (init_state []) (demo_run retry_path) /\
  (forall pre t post, st_trace (demo_run retry_path) = pre ++ EvStart t :: post ->
     forall u, ord u < ord t -> In (EvSuccess u) pre).
Proof.
  assert (Hb : account_monthly_balance_generation demo_params = Some demo_dag) by reflexivity.
  assert (Hr : reachable demo_env demo_params demo_dag (init_state []) (demo_run retry_path))
    by (apply (run_actions_reachable _ _ _ retry_path); vm_compute; reflexivity).
  split; [exact Hb|split; [exact Hr|]].
  exact (proj1 (proj2 (C1_sequential_order demo_env demo_params demo_dag [] _ Hb Hr))).
Defined.

Lemma C2_witness :
  account_monthly_balance_generation demo_params = Some demo_dag /\
  reachable demo_env demo_params demo_dag (init_state []) (demo_run load_fails_prefix) /\
  st_ti (demo_run load_fails_prefix) load_to_s3 = failed /\
  ord load_to_s3 < ord generate_presigned_url /\
  reachable demo_env demo_params demo_dag (demo_run load_fails_prefix) (demo_run load_fails_path) /\
  quiescent demo_env demo_params demo_dag (demo_run load_fails_path) = true /\
  dag_run_state demo_dag (demo_run load_fails_path) = RunFailed /\
  ~ In (EvStart notify_slack) (st_trace (demo_run load_fails_path)).
Proof.
  assert (Hb : account_monthly_balance_generation demo_params = Some demo_dag) by reflexivity.
  assert (Hr : reachable demo_env demo_params demo_dag (init_state []) (demo_run load_fails_prefix))
    by (apply (run_actions_reachable _ _ _ load_fails_prefix); vm_compute; reflexivity).
  assert (Hf : st_ti (demo_run load_fails_prefix) load_to_s3 = failed) by (vm_compute; reflexivity).
  assert (Hlt : ord load_to_s3 < ord generate_presigned_url) by (simpl; lia).
  assert (Hlt' : ord load_to_s3 < ord notify_slack) by (simpl; lia).
  assert (Hr' : reachable demo_env demo_params demo_dag (demo_run load_fails_prefix)
                  (demo_run load_fails_path))
    by (apply (run_actions_reachable _ _ _ (skipn 10 load_fails_path)); vm_compute; reflexivity).
  assert (Hq : quiescent demo_env demo_params demo_dag (demo_run load_fails_path) = true)
    by (vm_compute; reflexivity).
  destruct (C2_failure_halts demo_env demo_params demo_dag [] _ load_to_s3 notify_slack _
              Hb Hr Hf Hlt' Hr') as (_ & Hns & _ & Hfail).
  repeat split; auto.
Defined.

Lemma C3_witness :
  reference_dag demo_dag_dir = Some demo_dag /\
  reachable demo_env (PARAMS_DEFINITION demo_dag_dir) demo_dag (init_state [])
    (demo_run happy_path) /\
  pc_object_key (d_presign demo_dag) = "output_files/account_monthly_balance.csv".
Proof.
  assert (Hb : reference_dag demo_dag_dir = Some demo_dag) by reflexivity.
  assert (Hr : reachable demo_env (PARAMS_DEFINITION demo_dag_dir) demo_dag (init_state [])
                 (demo_run happy_path))
    by (apply (run_actions_reachable _ _ _ happy_path); vm_compute; reflexivity).
  split; [exact Hb|split; [exact Hr|]].
  exact (proj1 (proj2 (proj2 (C3_presigned_url_call demo_env demo_dag_dir demo_dag [] _ Hb Hr)))).
Defined.

(** C5 as first stated fails: the demo connection yields region eu-west-1,
    but the signing request is made by a client for us-east-1. *)
Lemma C5_counterexample :
  get_connection demo_env "aws_conn_id" = Some demo_conn /\
  dict_get (conn_extra_dejson demo_conn) "region_name" = Some "eu-west-1" /\
  exists r, presigned_url_request demo_env demo_params "terraform-nu-db-pg-48baa6b7"
              "output_files/account_monthly_balance.csv" 604800 = Some r /\
            s_region_name (c_session (pr_client r)) = "eu-west-1" /\
            c_region_name (pr_client r) = "us-east-1" /\
            c_region_name (pr_client r) <> "eu-west-1".
Proof.
  split; [reflexivity|split; [reflexivity|]].
  eexists; split; [reflexivity|]. simpl. split; [reflexivity|split; [reflexivity|discriminate]].
Qed.

Lemma C5_witness :
  dict_get demo_params "aws_conn_id" = Some "aws_conn_id" /\
  get_connection demo_env "aws_conn_id" = Some demo_conn /\
  exists r, presigned_url_request demo_env demo_params "terraform-nu-db-pg-48baa6b7"
              "output_files/account_monthly_balance.csv" 604800 = Some r /\
            c_region_name (pr_client r) = "us-east-1".
Proof.
  assert (Ha : dict_get demo_params "aws_conn_id" = Some "aws_conn_id") by reflexivity.
  assert (Hc : get_connection demo_env "aws_conn_id" = Some demo_conn) by reflexivity.
  split; [exact Ha|split; [exact Hc|]].
  destruct (C5_connection_credentials demo_env demo_params "terraform-nu-db-pg-48baa6b7"
              "output_files/account_monthly_balance.csv" 604800 _ _ Ha Hc)
    as (r & Hr & _ & _ & _ & Hreg).
  exists r; split; assumption.
Defined.

Lemma C6_witness :
  account_monthly_balance_generation demo_params = Some demo_dag /\
  (exists req, presigned_url_request demo_env demo_params (pc_bucket_name (d_presign demo_dag))
     (pc_object_key (d_presign demo_dag)) (pc_expires_in_sec (d_presign demo_dag)) = Some req) /\
  count_slack (st_effects (demo_run happy_path)) = 1 /\
  (forall st2, reachable demo_env demo_params demo_dag
                 (init_state (st_effects (demo_run happy_path))) st2 ->
     dag_run_state demo_dag st2 = RunSuccess -> count_slack (st_effects st2) = 2).
Proof.
  assert (Hb : account_monthly_balance_generation demo_params = Some demo_dag) by reflexivity.
  assert (Hq : {r | presigned_url_request demo_env demo_params (pc_bucket_name (d_presign demo_dag))
     (pc_object_key (d_presign demo_dag)) (pc_expires_in_sec (d_presign demo_dag)) = Some r})
    by (eexists; reflexivity).
  destruct Hq as [req Hq].
  assert (Hr : reachable demo_env demo_params demo_dag (init_state []) (demo_run happy_path))
    by (apply (run_actions_reachable _ _ _ happy_path); vm_compute; reflexivity).
  assert (Hs : dag_run_state demo_dag (demo_run happy_path) = RunSuccess)
    by (vm_compute; reflexivity).
  destruct (C6_notification_not_idempotent demo_env demo_params demo_dag req Hb Hq)
    as (_ & Hone & Htwo).
  split; [exact Hb|split; [exists req; exact Hq|split]].
  - exact (Hone [] _ Hr Hs).
  - intros st2 Hr2 Hs2. exact (Htwo [] _ st2 Hr Hs Hr2 Hs2).
Defined.

(** C7 as first stated fails: with retries = 3 the demo run tries
    create_table_snowflake four times before it is failed. *)
Lemma C7_counterexample :
  ~ (forall st, reachable demo_env demo_params demo_dag (init_state []) st ->
       count_starts create_table_snowflake (st_trace st) <= 3).
Proof.
  intros H.
  assert (Hr : reachable demo_env demo_params demo_dag (init_state []) (demo_run create_fails_path))
    by (apply (run_actions_reachable _ _ _ create_fails_path); vm_compute; reflexivity).
  specialize (H _ Hr). vm_compute in H. lia.
Qed.

Lemma C7_witness :
  account_monthly_balance_generation demo_params = Some demo_dag /\
  reachable demo_env demo_params demo_dag (init_state []) (demo_run create_fails_path) /\
  count_starts create_table_snowflake (st_trace (demo_run create_fails_path)) = 4.
Proof.
  assert (Hb : account_monthly_balance_generation demo_params = Some demo_dag) by reflexivity.
  assert (Hr : reachable demo_env demo_params demo_dag (init_state []) (demo_run create_fails_path))
    by (apply (run_actions_reachable _ _ _ create_fails_path); vm_compute; reflexivity).
  assert (Hf : st_ti (demo_run create_fails_path) create_table_snowflake = failed)
    by (vm_compute; reflexivity).
  destruct (C7_retries_uniform demo_env demo_params demo_dag [] _ create_table_snowflake Hb Hr)
    as (_ & _ & H4).
  split; [exact Hb|split; [exact Hr|]]. rewrite (H4 Hf). reflexivity.
Defined.

Lemma C8_witness :
  account_monthly_balance_generation demo_params = Some demo_dag /\
  reachable demo_env demo_params demo_dag (init_state []) (demo_run happy_path) /\
  so_conn_id (d_create demo_dag) = so_conn_id (d_load demo_dag).
Proof.
  assert (Hb : account_monthly_balance_generation demo_params = Some demo_dag) by reflexivity.
  assert (Hr : reachable demo_env demo_params demo_dag (init_state []) (demo_run happy_path))
    by (apply (run_actions_reachable _ _ _ happy_path); vm_compute; reflexivity).
  destruct (C8_single_configuration demo_env demo_params demo_dag [] _ Hb Hr)
    as (_ & _ & Hc & _).
  split; [exact Hb|split; [exact Hr|exact Hc]].
Defined.

Lemma C9_witness :
  dict_get demo_params "aws_conn_id" = Some "aws_conn_id" /\
  get_connection demo_env "aws_conn_id" = Some demo_conn /\
  exists r, presigned_url_request demo_env demo_params "b" "k" 60 = Some r /\
            c_region_name (pr_client r) = "us-east-1".
Proof.
  assert (Ha : dict_get demo_params "aws_conn_id" = Some "aws_conn_id") by reflexivity.
  assert (Hc : get_connection demo_env "aws_conn_id" = Some demo_conn) by reflexivity.
  split; [exact Ha|split; [exact Hc|]].
  destruct (C9_signing_region demo_env demo_params "b" "k" 60 _ _ Ha Hc) as (r & Hr & Hreg & _).
  exists r; split; assumption.
Defined.

Lemma C10_witness :
  account_monthly_balance_generation demo_params = Some demo_dag /\
  reachable demo_env demo_params demo_dag (init_state []) (demo_run happy_path) /\
  dict_get demo_params "snowflake_conn_id" = Some (so_conn_id (d_create demo_dag)).
Proof.
  assert (Hb : account_monthly_balance_generation demo_params = Some demo_dag) by reflexivity.
  assert (Hr : reachable demo_env demo_params demo_dag (init_state []) (demo_run happy_path))
    by (apply (run_actions_reachable _ _ _ happy_path); vm_compute; reflexivity).
  destruct (C10_slack_constants demo_env demo_dag_dir demo_params demo_dag [] _ Hb Hr)
    as (_ & Hs & _).
  split; [exact Hb|split; [exact Hr|exact Hs]].
Defined.

(** ** Further properties of the DAG *)


(** X2: when the configuration names no AWS connection, or the connection
    it names does not exist, generate_presigned_url can never return: no
    URL is signed and no XCom value is pushed, notify_slack never
    succeeds, the only calls of the run are (a prefix of) the two SQL
    statements, the run is never successful, and once the scheduler has
    nothing left to do the run is failed. *)
Theorem X2_missing_aws_connection E params D log0 st :
  account_monthly_balance_generation params = Some D ->
  (forall aws, dict_get params "aws_conn_id" = Some aws -> get_connection E aws = None) ->
  reachable E params D (init_state log0) st ->
  st_ti st generate_presigned_url <> success /\ st_ti st notify_slack <> success /\
  st_xcom st = None /\
  (exists k, st_effects st = log0 ++ firstn k [ESql (d_create D); ESql (d_load D)]) /\
  dag_run_state D st <> RunSuccess /\
  (quiescent E params D st = true -> dag_run_state D st = RunFailed).
Proof.
  intros Hb Hc Hr. pose proof (dag_edges_of _ _ Hb) as HD.
  assert (Hn : dag_request E params D = None).
  { unfold dag_request, presigned_url_request.
    destruct (dict_get params "aws_conn_id") as [aws|]; [rewrite (Hc aws eq_refl)|]; reflexivity. }
  destruct (EffInv_reachable E params D HD log0 st Hr) as ((He & Hx) & I).
  destruct (no_request_reachable E params D HD log0 st Hn Hr) as (Hp & Hq).
  split; [exact Hp|split; [exact Hq|split; [|split; [|split]]]].
  - rewrite Hx, Hn; destruct (ti_state_eqb _ _); reflexivity.
  - destruct (succeeded_prefix E params D log0 st I) as (k & Hk).
    exists k. rewrite He, Hk. unfold full_effects; rewrite Hn, app_nil_r; reflexivity.
  - intros Hs. exact (Hq (run_success_notify D st HD Hs)).
  - intros Hqu. rewrite (dag_run_state_final D st HD (quiescent_finished E params D log0 st HD I Hqu)).
    destruct (st_ti st notify_slack); [reflexivity|reflexivity|contradiction|reflexivity..].
Qed.



(** X5: the scheduler never gets stuck: when no action is enabled, every
    task instance is finished, and the run is successful exactly when all
    four tasks succeeded, failed exactly when some task failed for good. *)
Theorem X5_quiescent_run_final E params D log0 st :
  account_monthly_balance_generation params = Some D ->
  reachable E params D (init_state log0) st ->
  quiescent E params D st = true ->
  (forall t, finished (st_ti st t) = true) /\
  (dag_run_state D st = RunSuccess <-> forall t, st_ti st t = success) /\
  (dag_run_state D st = RunFailed <-> exists t, st_ti st t = failed).
Proof.
  intros Hb Hr Hq. pose proof (dag_edges_of _ _ Hb) as HD.
  pose proof (Inv_reachable E params D HD log0 _ _ Hr (Inv_init E params D log0)) as I.
  pose proof (quiescent_finished E params D log0 st HD I Hq) as Hf.
  rewrite (dag_run_state_final D st HD Hf).
  split; [exact Hf|split; split].
  - intros Hs t. destruct (st_ti st notify_slack) eqn:Hn; simpl in Hs; try discriminate.
    destruct t; auto;
      apply (inv_before _ _ _ _ _ I notify_slack); try (rewrite Hn; reflexivity); simpl; lia.
  - intros Hall; rewrite Hall; reflexivity.
  - intros Hfl. pose proof (Hf notify_slack) as Hfn.
    destruct (st_ti st notify_slack) eqn:Hn; simpl in Hfn, Hfl; try discriminate.
    + exists notify_slack; exact Hn.
    + destruct (uf_origin E params D log0 st HD I notify_slack Hn) as (u & _ & Hu).
      exists u; exact Hu.
  - intros (t & Ht). destruct (ti_state_eqb (st_ti st notify_slack) success) eqn:Hn;
      [|reflexivity].
    exfalso. apply ti_state_eqb_spec in Hn.
    destruct (task_dec t notify_slack) as [->|Hne]; [congruence|].
    assert (Hlt : ord t < ord notify_slack) by (destruct t; simpl; [lia|lia|lia|congruence]).
    pose proof (quiescent_after_failed E params D log0 st t HD I Hq Ht notify_slack Hlt).
    congruence.
Qed.

(** X6: every run terminates: whatever the scheduler and the workers do, a
    run of the DAG takes at most 32 steps, a start and an end for each of
    the at most retries + 1 = 4 tries of each of the 4 tasks. *)
Theorem X6_run_length_bound E params D log0 acts st :
  account_monthly_balance_generation params = Some D ->
  run_actions E params D (init_state log0) acts = Some st ->
  length acts <= length all_tasks * (2 * (default_retries + 1)).
Proof.
  intros Hb Hrun.
  exact (run_actions_potential E params D log0 acts _ _ (dag_edges_of _ _ Hb)
           (Inv_init E params D log0) Hrun).
Qed.




Lemma X2_witness :
  account_monthly_balance_generation demo_params = Some demo_dag /\
  (forall aws, dict_get demo_params "aws_conn_id" = Some aws ->
     get_connection demo_env_noconn aws = None) /\
  reachable demo_env_noconn demo_params demo_dag (init_state []) (demo_noconn_run noconn_path) /\
  quiescent demo_env_noconn demo_params demo_dag (demo_noconn_run noconn_path) = true /\
  dag_run_state demo_dag (demo_noconn_run noconn_path) = RunFailed.
Proof.
  assert (Hb : account_monthly_balance_generation demo_params = Some demo_dag) by reflexivity.
  assert (Hc : forall aws, dict_get demo_params "aws_conn_id" = Some aws ->
                 get_connection demo_env_noconn aws = None) by (intros; reflexivity).
  assert (Hr : reachable demo_env_noconn demo_params demo_dag (init_state [])
                 (demo_noconn_run noconn_path))
    by (apply (run_actions_reachable _ _ _ noconn_path); vm_compute; reflexivity).
  assert (Hq : quiescent demo_env_noconn demo_params demo_dag (demo_noconn_run noconn_path) = true)
    by (vm_compute; reflexivity).
  destruct (X2_missing_aws_connection demo_env_noconn demo_params demo_dag [] _ Hb Hc Hr)
    as (_ & _ & _ & _ & _ & Hf).
  split; [exact Hb|split; [exact Hc|split; [exact Hr|split; [exact Hq|exact (Hf Hq)]]]].
Defined.



Lemma X5_witness :
  account_monthly_balance_generation demo_params = Some demo_dag /\
  reachable demo_env demo_params demo_dag (init_state []) (demo_run load_fails_path) /\
  quiescent demo_env demo_params demo_dag (demo_run load_fails_path) = true /\
  exists t, st_ti (demo_run load_fails_path) t = failed /\
  dag_run_state demo_dag (demo_run load_fails_path) = RunFailed.
Proof.
  assert (Hb : account_monthly_balance_generation demo_params = Some demo_dag) by reflexivity.
  assert (Hr : reachable demo_env demo_params demo_dag (init_state []) (demo_run load_fails_path))
    by (apply (run_actions_reachable _ _ _ load_fails_path); vm_compute; reflexivity).
  assert (Hq : quiescent demo_env demo_params demo_dag (demo_run load_fails_path) = true)
    by (vm_compute; reflexivity).
  assert (Hf : st_ti (demo_run load_fails_path) load_to_s3 = failed)
    by (vm_compute; reflexivity).
  destruct (X5_quiescent_run_final demo_env demo_params demo_dag [] _ Hb Hr Hq)
    as (_ & _ & _ & Hfail).
  split; [exact Hb|split; [exact Hr|split; [exact Hq|]]].
  exists load_to_s3; split; [exact Hf|]. apply Hfail. exists load_to_s3; exact Hf.
Defined.

Lemma X6_witness :
  account_monthly_balance_generation demo_params = Some demo_dag /\
  run_actions demo_env demo_params demo_dag (init_state []) last_try_path =
    Some (demo_run last_try_path) /\
  length last_try_path = 32 /\ length last_try_path <= 32 /\
  dag_run_state demo_dag (demo_run last_try_path) = RunSuccess.
Proof.
  assert (Hb : account_monthly_balance_generation demo_params = Some demo_dag) by reflexivity.
  assert (Hrun : run_actions demo_env demo_params demo_dag (init_state []) last_try_path =
                   Some (demo_run last_try_path)) by (vm_compute; reflexivity).
  split; [exact Hb|split; [exact Hrun|split; [reflexivity|split]]].
  - exact (X6_run_length_bound demo_env demo_params demo_dag [] _ _ Hb Hrun).
  - vm_compute; reflexivity.
Defined.

